(** * newmotion.py: camera motion detector with e-mail alerts

    A shallow embedding of [src/newmotion.py] and the properties of its
    capture / detect / annotate / notify loop.

    The script is glue around two libraries.  Their primitives are
    modelled as follows.
    - The 8-bit single-channel operations the detector is made of
      ([cv2.absdiff], [cv2.threshold], [cv2.dilate], [cv2.findContours],
      [cv2.contourArea], [cv2.boundingRect]) are written out in module
      [cv2] after OpenCV's documented behaviour.
    - Colour conversion, Gaussian blur and the drawing calls depend on
      OpenCV's rasterisation and fixed-point arithmetic; they are the
      methods of the class [Imaging], and the script is embedded for an
      arbitrary instance.
    - An SMTP session is a record of outcomes, one per call the script
      makes on [smtplib]. *)

From Stdlib Require Import ZArith QArith Qabs List String Lia Lqa DecimalString.
From stdpp Require Import base list.

Local Open Scope Z_scope.

(** ** Grayscale images and the OpenCV primitives on them *)

Module cv2.

(** A single-channel 8-bit image, row by row (a numpy array of shape [(H, W)]). *)
Definition Gray := list (list Z).

(** A point is [(x, y)]: column first, as OpenCV has it. *)
Definition Point := (Z * Z)%type.
Definition Contour := list Point.

Definition shape (m : Gray) : list nat := map length m.

(** Sample at row [y], column [x]; 0 outside the image. *)
Definition at_ (m : Gray) (y x : Z) : Z :=
  if (y <? 0) || (x <? 0) then 0
  else default 0 (m !! Z.to_nat y ≫= (.!! Z.to_nat x)).

Definition saturate_u8 (z : Z) : Z := Z.max 0 (Z.min 255 z).

(** [cv2.absdiff]: per-sample saturated absolute difference; OpenCV raises
    [cv2.error] when the two arrays differ in size ([None] here). *)
Definition absdiff (a b : Gray) : option Gray :=
  if decide (shape a = shape b)
  then Some (zip_with (zip_with (fun x y => saturate_u8 (Z.abs (x - y)))) a b)
  else None.

Inductive ThresholdType :=
  | THRESH_BINARY | THRESH_BINARY_INV | THRESH_TRUNC
  | THRESH_TOZERO | THRESH_TOZERO_INV.

Definition threshold_px (ty : ThresholdType) (thresh maxval v : Z) : Z :=
  match ty with
  | THRESH_BINARY => if thresh <? v then maxval else 0
  | THRESH_BINARY_INV => if thresh <? v then 0 else maxval
  | THRESH_TRUNC => if thresh <? v then thresh else v
  | THRESH_TOZERO => if thresh <? v then v else 0
  | THRESH_TOZERO_INV => if thresh <? v then 0 else v
  end.

(** [cv2.threshold] returns the pair [(retval, dst)]. *)
Definition threshold (src : Gray) (thresh maxval : Z) (ty : ThresholdType)
  : Z * Gray :=
  (thresh, map (map (threshold_px ty thresh maxval)) src).

(** [cv2.dilate] with [kernel=None]: a 3x3 rectangular structuring element
    anchored at its centre; samples beyond the border do not take part in
    the maximum. *)
Definition kernel3x3 : list Point :=
  [(-1,-1); (0,-1); (1,-1); (-1,0); (0,0); (1,0); (-1,1); (0,1); (1,1)].

Definition dilate_px (m : Gray) (y x : Z) : Z :=
  fold_right Z.max 0 (map (fun d => at_ m (y + snd d) (x + fst d)) kernel3x3).

Definition dilate3x3 (m : Gray) : Gray :=
  imap (fun y row =>
          imap (fun x _ => dilate_px m (Z.of_nat y) (Z.of_nat x)) row) m.

Definition dilate (src : Gray) (iterations : nat) : Gray :=
  Nat.iter iterations dilate3x3 src.

(** *** Contours *)

Definition fg (m : Gray) (p : Point) : bool :=
  negb (at_ m (snd p) (fst p) =? 0).

Definition in_image (m : Gray) (p : Point) : bool :=
  (0 <=? snd p) && (0 <=? fst p) &&
  match m !! Z.to_nat (snd p) with
  | Some row => fst p <? Z.of_nat (length row)
  | None => false
  end.

Definition point_eqb (p q : Point) : bool :=
  (fst p =? fst q) && (snd p =? snd q).

Definition mem (p : Point) (l : list Point) : bool := existsb (point_eqb p) l.

(** All pixel positions in raster order. *)
Definition positions (m : Gray) : list Point :=
  concat (imap (fun y row =>
                  imap (fun x _ => (Z.of_nat x, Z.of_nat y)) row) m).

Definition npixels (m : Gray) : nat := length (positions m).

(** The eight chain-code directions, numbered as in OpenCV. *)
Definition delta (s : Z) : Point :=
  match s mod 8 with
  | 0 => (1, 0) | 1 => (1, -1) | 2 => (0, -1) | 3 => (-1, -1)
  | 4 => (-1, 0) | 5 => (-1, 1) | 6 => (0, 1) | _ => (1, 1)
  end.

Definition step (p : Point) (s : Z) : Point :=
  (fst p + fst (delta s), snd p + snd (delta s)).

(** First direction among [s], [s+d], [s+2d], ... ([n] candidates) in which
    [p] has a foreground neighbour. *)
Fixpoint probe (m : Gray) (p : Point) (s d : Z) (n : nat) : option Z :=
  match n with
  | O => None
  | S n' => if fg m (step p s) then Some (s mod 8) else probe m p (s + d) d n'
  end.

(** Border following from [i3], having arrived against direction [s].  With
    [CHAIN_APPROX_SIMPLE] a point is stored only where the direction of
    travel changes.  Returns the stored points and every pixel visited. *)
Fixpoint follow (m : Gray) (i0 i1 i3 : Point) (s prev_s : Z) (fuel : nat)
    (pts visited : list Point) : Contour * list Point :=
  match fuel with
  | O => (rev pts, visited)
  | S fuel' =>
      match probe m i3 (s + 1) 1 8 with
      | None => (rev pts, i3 :: visited)
      | Some s' =>
          let pts' := if s' =? prev_s then pts else i3 :: pts in
          let i4 := step i3 s' in
          if point_eqb i4 i0 && point_eqb i3 i1
          then (rev pts', i3 :: visited)
          else follow m i0 i1 i4 ((s' + 4) mod 8) s' fuel' pts' (i3 :: visited)
      end
  end.

(** The outer border that starts at [i0], a foreground pixel whose left
    neighbour is background. *)
Definition fetchContour (m : Gray) (i0 : Point) : Contour * list Point :=
  match probe m i0 3 (-1) 7 with
  | None => ([i0], [i0])
  | Some s =>
      follow m i0 (step i0 s) i0 s (Z.lxor s 4) (8 * npixels m + 8) [] []
  end.

(** Background reachable from the image frame by 4-connected steps: the
    region no foreground component encloses. *)
Fixpoint flood (m : Gray) (fuel : nat) (work seen : list Point) : list Point :=
  match fuel with
  | O => seen
  | S fuel' =>
      match work with
      | [] => seen
      | p :: work' =>
          if in_image m p && negb (fg m p) && negb (mem p seen)
          then flood m fuel' (step p 0 :: step p 2 :: step p 4 :: step p 6 :: work')
                     (p :: seen)
          else flood m fuel' work' seen
      end
  end.

Definition on_frame (m : Gray) (p : Point) : bool :=
  negb (in_image m (step p 0) && in_image m (step p 2) &&
        in_image m (step p 4) && in_image m (step p 6)).

Definition outer_background (m : Gray) : list Point :=
  flood m (5 * npixels m + 8) (filter (fun p => on_frame m p = true) (positions m)) [].

Inductive RetrievalMode := RETR_EXTERNAL.
Inductive ApproxMethod := CHAIN_APPROX_SIMPLE.

(** [cv2.findContours(image, RETR_EXTERNAL, CHAIN_APPROX_SIMPLE)]: raster
    scan; an unvisited foreground pixel whose left neighbour lies in the
    outer background starts the outer border of a new 8-connected
    component.  Contours come back most recently found first; the second
    component of the result is the hierarchy, which the script ignores. *)
Definition scan_step (m : Gray) (outer : list Point)
    (acc : list Point * list Contour) (p : Point) : list Point * list Contour :=
  let left := step p 4 in
  if fg m p && negb (fg m left) && (negb (in_image m left) || mem left outer)
     && negb (mem p (fst acc))
  then let r := fetchContour m p in (snd r ++ fst acc, fst r :: snd acc)
  else acc.

Definition findContours (image : Gray) (mode : RetrievalMode)
    (method : ApproxMethod) : list Contour * unit :=
  (snd (fold_left (scan_step image (outer_background image))
                  (positions image) ([], [])), tt).

(** [cv2.contourArea]: Green's formula over the closed polygon, absolute
    value (a multiple of one half for integer points). *)
Fixpoint green_sum (prev : Point) (pts : list Point) : Z :=
  match pts with
  | [] => 0
  | p :: rest => (fst prev * snd p - fst p * snd prev) + green_sum p rest
  end.

Definition contourArea (c : Contour) : Q :=
  Qabs (green_sum (List.last c (0, 0)) c # 2).

(** [cv2.boundingRect]: [(x, y, w, h)] of the smallest upright rectangle
    holding every point. *)
Definition boundingRect (c : Contour) : Z * Z * Z * Z :=
  match c with
  | [] => (0, 0, 0, 0)
  | p :: rest =>
      let xmin := fold_right Z.min (fst p) (map fst rest) in
      let xmax := fold_right Z.max (fst p) (map fst rest) in
      let ymin := fold_right Z.min (snd p) (map snd rest) in
      let ymax := fold_right Z.max (snd p) (map snd rest) in
      (xmin, ymin, xmax - xmin + 1, ymax - ymin + 1)
  end.

End cv2.

(** ** Colour frames

    What the script needs from OpenCV on colour images.  [rectangle] and
    [putText] return the frame as it is after the call has drawn on it. *)

Inductive ColorConversionCode := COLOR_BGR2GRAY.
Inductive HersheyFonts := FONT_HERSHEY_SIMPLEX.
Definition Scalar := (Z * Z * Z)%type.

Class Imaging := {
  Frame : Type;
  cvtColor : Frame -> ColorConversionCode -> cv2.Gray;
  GaussianBlur : cv2.Gray -> Z * Z -> Z -> cv2.Gray;
  rectangle : Frame -> cv2.Point -> cv2.Point -> Scalar -> Z -> Frame;
  putText : Frame -> string -> cv2.Point -> HersheyFonts -> Q -> Scalar -> Z -> Frame;
}.

(** ** Configuration *)

Record Config := {
  SENDER_EMAIL : option string;
  SENDER_PASSWORD : option string;
  RECEIVER_EMAIL : option string;
}.

Definition CAMERA_URL : Z := 0.
Definition SMTP_SERVER : string := "smtp.gmail.com".
Definition SMTP_PORT : Z := 587.
Definition NOTIFICATION_DELAY : Q := 60.
Definition MOTION_THRESHOLD : Z := 25.
Definition MIN_CONTOUR_AREA : Q := 500.

(** Python truthiness of an optional string: [None] and [""] are falsy. *)
Definition truthy (s : option string) : bool :=
  match s with
  | Some (String _ _) => true
  | _ => false
  end.

Definition Qltb (x y : Q) : bool := negb (Qle_bool y x).

Definition newline : string := String (Ascii.ascii_of_nat 10) EmptyString.

Definition str_nat (n : nat) : string := NilZero.string_of_uint (Nat.to_uint n).

(** ** Exceptions *)

Inductive ExcClass :=
  | SMTPAuthenticationError | SMTPException | cv2_error | Exception
  | KeyboardInterrupt | SystemExit.

#[global] Instance ExcClass_eq_dec : EqDecision ExcClass.
Proof. solve_decision. Defined.

(** The classes an exception of class [c] is an instance of, below
    [BaseException]. *)
Definition mro (c : ExcClass) : list ExcClass :=
  match c with
  | SMTPAuthenticationError => [SMTPAuthenticationError; SMTPException; Exception]
  | SMTPException => [SMTPException; Exception]
  | cv2_error => [cv2_error; Exception]
  | Exception => [Exception]
  | KeyboardInterrupt => [KeyboardInterrupt]
  | SystemExit => [SystemExit]
  end.

Record exn := { exc_class : ExcClass; exc_msg : string }.

Definition isinstance (e : exn) (c : ExcClass) : bool :=
  bool_decide (c ∈ mro (exc_class e)).

(** ** The mail relay *)

Record EmailMessage := {
  content : string;
  Subject : string;
  From : option string;
  To : option string;
}.

(** What each call of one [send_notification] does: [None] when it returns,
    [Some e] when it raises [e].  [compose] stands for building the
    [EmailMessage]; [quit] for leaving the [with] block. *)
Record SmtpSession := {
  compose : option exn;
  connect : option exn;
  starttls : option exn;
  login : option exn;
  send_message : option exn;
  quit : option exn;
}.

(** How a computation ends: with a value, or with an exception on its way
    up the stack. *)
Inductive Result (A : Type) :=
  | Ret (a : A)
  | Raise (e : exn).
Arguments Ret {A} a.
Arguments Raise {A} e.

(** ** The world the script runs in, and its effects *)

(** Colour frames are numpy arrays the drawing calls update in place: they
    live in a store and the script's variables hold their addresses. *)
Abbreviation loc := nat (only parsing).

Section Script.
Context `{Imaging}.


Inductive Event :=
  | Stdout (line : string)
  | SmtpConnect (host : string) (port : Z)
  | SmtpStartTLS
  | SmtpLogin (user password : option string)
  | SmtpSendMessage (msg : EmailMessage)
  | SmtpQuit
  | Imshow (winname : string) (img : Frame + cv2.Gray)
  | Imwrite (filename : string) (img : Frame)
  | CapRelease
  | DestroyAllWindows.

Record World := {
  objects : list Frame;      (* the frame arrays allocated so far *)
  cap : option bool;         (* [None]: name unbound; [Some b]: [cap.isOpened()] is [b] *)
  trace : list Event;        (* what the process has done, oldest first *)
}.

Definition world0 : World := {| objects := []; cap := None; trace := [] |}.

Definition M (A : Type) : Type := World -> Result A * World.

#[global] Instance M_ret : MRet M := fun A a w => (Ret a, w).
#[global] Instance M_bind : MBind M := fun A B f m w =>
  match m w with
  | (Ret a, w') => f a w'
  | (Raise e, w') => (Raise e, w')
  end.

Definition raise {A} (e : exn) : M A := fun w => (Raise e, w).

Definition emit (ev : Event) : M unit := fun w =>
  (Ret tt, {| objects := objects w; cap := cap w; trace := trace w ++ [ev] |}).

Definition print (line : string) : M unit := emit (Stdout line).

(** A library call that raises when [o] says so, and otherwise takes
    effect as [ev]. *)
Definition may_raise (o : option exn) : M unit :=
  match o with
  | Some e => raise e
  | None => mret tt
  end.

Definition call (o : option exn) (ev : Event) : M unit :=
  may_raise o ;; emit ev.

(** [try: body / except cls_1: h_1 / ... ]: the first clause whose class the
    exception is an instance of handles it; with none, it propagates. *)
Fixpoint dispatch {A} (e : exn) (clauses : list (ExcClass * (exn -> M A))) : M A :=
  match clauses with
  | [] => raise e
  | (c, h) :: rest => if isinstance e c then h e else dispatch e rest
  end.

Definition try_except {A} (body : M A) (clauses : list (ExcClass * (exn -> M A))) : M A :=
  fun w =>
    match body w with
    | (Ret a, w') => (Ret a, w')
    | (Raise e, w') => dispatch e clauses w'
    end.

(** [try: body / finally: fin], and the exit half of a [with] block: [fin]
    runs however [body] ends; an exception of [fin] replaces the outcome. *)
Definition try_finally {A} (body : M A) (fin : M unit) : M A :=
  fun w =>
    match body w with
    | (r, w') =>
        match fin w' with
        | (Ret _, w'') => (r, w'')
        | (Raise e, w'') => (Raise e, w'')
        end
    end.

(** Allocation of a fresh frame array, reading and in-place update. *)
Definition alloc (f : Frame) : M loc := fun w =>
  (Ret (length (objects w)),
   {| objects := objects w ++ [f]; cap := cap w; trace := trace w |}).

Definition draw (l : loc) (op : Frame -> Frame) : M unit := fun w =>
  (Ret tt, {| objects := alter op l (objects w); cap := cap w; trace := trace w |}).

Definition with_frame (l : loc) (k : Frame -> M unit) : M unit := fun w =>
  match objects w !! l with
  | Some f => k f w
  | None => (Ret tt, w)
  end.

(** ** [send_notification] *)

Definition send_notification (cfg : Config) (net : SmtpSession)
    (subject body : string) : M bool :=
  if negb (truthy (SENDER_PASSWORD cfg)) then
    print "Error: SENDER_PASSWORD not set in .env file" ;;
    mret false
  else
    try_except
      (may_raise (compose net) ;;
       let msg := {| content := body; Subject := subject;
                     From := SENDER_EMAIL cfg; To := RECEIVER_EMAIL cfg |} in
       print ("Attempting to connect to SMTP server: " ++ SMTP_SERVER
              ++ " on port " ++ str_nat (Z.to_nat SMTP_PORT) ++ "...") ;;
       call (connect net) (SmtpConnect SMTP_SERVER SMTP_PORT) ;;
       try_finally
         (call (starttls net) SmtpStartTLS ;;
          print "TLS connection started. Logging in..." ;;
          call (login net) (SmtpLogin (SENDER_EMAIL cfg) (SENDER_PASSWORD cfg)) ;;
          print "Login successful. Sending message..." ;;
          call (send_message net) (SmtpSendMessage msg) ;;
          print "✓ Notification email sent successfully!" ;;
          mret true)
         (call (quit net) SmtpQuit))
      [ (SMTPAuthenticationError, fun _ =>
           print "✗ Error: SMTP Authentication Failed." ;;
           print "  - Ensure you're using a Google App Password, not your regular account password" ;;
           print "  - Check that SENDER_EMAIL and SENDER_PASSWORD are correct in .env file" ;;
           mret false);
        (SMTPException, fun e =>
           print ("✗ Error sending email: " ++ exc_msg e) ;;
           mret false);
        (Exception, fun e =>
           print ("✗ An unexpected error occurred: " ++ exc_msg e) ;;
           mret false) ].

(** ** The main loop *)

(** What one pass of the loop takes from outside: the frame [cap.read()]
    delivers, the wall-clock strings, the two readings of [time.time()]
    (line 158, and line 165 after the send), the mail relay's behaviour,
    and the key [cv2.waitKey(1)] reports. *)
Record Tick := {
  frame : Frame;
  timestamp : string;
  clock_gate : Q;
  body_stamp : string;
  smtp : SmtpSession;
  clock_sent : Q;
  key : Z;
  snapshot_stamp : string;
}.

(** The loop's variables that live across passes. *)
Record Vars := {
  gray1 : cv2.Gray;
  last_notification_time : Q;
  frame_count : nat;
}.

(** The values one pass computed, as the script names them; [notified] is
    [None] when [send_notification] was not called and its result
    otherwise. *)
Record Pass := {
  frame2 : loc;
  gray2 : cv2.Gray;
  thresh : cv2.Gray;
  contours : list cv2.Contour;
  motion_detected : bool;
  motion_count : nat;
  notified : option bool;
}.

Inductive Ctl := Continue | Break.

(** Lines 89-90 and 115-116. *)
Definition prepare (f : Frame) : cv2.Gray :=
  GaussianBlur (cvtColor f COLOR_BGR2GRAY) (21, 21) 0.

(** Lines 119-128. *)
Definition difference (gray1 gray2 : cv2.Gray) : M cv2.Gray :=
  match cv2.absdiff gray1 gray2 with
  | Some diff => mret diff
  | None => raise {| exc_class := cv2_error;
                     exc_msg := "Sizes of input arguments do not match" |}
  end.

Definition mask (diff : cv2.Gray) : cv2.Gray :=
  let thresh := snd (cv2.threshold diff MOTION_THRESHOLD 255 cv2.THRESH_BINARY) in
  cv2.dilate thresh 2.

Definition find (thresh : cv2.Gray) : list cv2.Contour :=
  fst (cv2.findContours thresh cv2.RETR_EXTERNAL cv2.CHAIN_APPROX_SIMPLE).

(** Lines 130-146: [for contour in contours]. *)
Fixpoint contour_loop (frame2 : loc) (contours : list cv2.Contour)
    (motion_detected : bool) (motion_count : nat) : M (bool * nat) :=
  match contours with
  | [] => mret (motion_detected, motion_count)
  | contour :: rest =>
      if Qltb (cv2.contourArea contour) MIN_CONTOUR_AREA
      then contour_loop frame2 rest motion_detected motion_count
      else
        let '(x, y, w, h) := cv2.boundingRect contour in
        draw frame2 (fun f => rectangle f (x, y) (x + w, y + h) (0, 255, 0) 2) ;;
        contour_loop frame2 rest true (S motion_count)
  end.

(** Lines 148-155. *)
Definition annotate (frame2 : loc) (timestamp : string)
    (motion_detected : bool) (motion_count : nat) : M unit :=
  draw frame2 (fun f => putText f timestamp (10, 30) FONT_HERSHEY_SIMPLEX
                                (7 # 10) (255, 255, 255) 2) ;;
  if motion_detected then
    let status_text :=
      ("MOTION DETECTED (" ++ str_nat motion_count ++ " objects)")%string in
    let status_color := (0, 0, 255) in
    draw frame2 (fun f => putText f status_text (10, 70) FONT_HERSHEY_SIMPLEX
                                  (7 # 10) status_color 2)
  else mret tt.

(** Lines 158-166; returns the new [last_notification_time] and whether
    the notifier ran. *)
Definition notify (cfg : Config) (t : Tick) (last_notification_time : Q)
    (motion_detected : bool) (motion_count : nat) : M (Q * option bool) :=
  if motion_detected
     && Qltb NOTIFICATION_DELAY (clock_gate t - last_notification_time)
  then
    let subject := "🚨 Motion Detected!"%string in
    let body := ("Motion was detected by the camera at " ++ body_stamp t
                 ++ "." ++ newline ++ newline
                 ++ "Number of objects detected: " ++ str_nat motion_count)%string in
    sent ← send_notification cfg (smtp t) subject body ;
    if sent : bool then
      print ("[" ++ timestamp t ++ "] Alert sent! Motion with "
             ++ str_nat motion_count ++ " object(s) detected.") ;;
      mret (clock_sent t, Some true)
    else mret (last_notification_time, Some false)
  else mret (last_notification_time, None).

Definition rule : string :=
  "============================================================".

(** Lines 177-188. *)
Definition handle_key (t : Tick) (frame2 : loc) : M Ctl :=
  let key := Z.land (key t) 255 in
  if key =? 113 then
    print (newline ++ rule) ;;
    print "Exiting motion detection..." ;;
    print rule ;;
    mret Break
  else if key =? 115 then
    let snapshot_filename := ("snapshot_" ++ snapshot_stamp t ++ ".jpg")%string in
    with_frame frame2 (fun f => emit (Imwrite snapshot_filename f)) ;;
    print ("✓ Snapshot saved: " ++ snapshot_filename) ;;
    mret Continue
  else mret Continue.

(** Lines 112-188: one pass over a frame that was read. *)
Definition loop_body (cfg : Config) (v : Vars) (t : Tick) : M (Ctl * Vars * Pass) :=
  frame2 ← alloc (frame t) ;
  let frame_count := S (frame_count v) in
  let gray2 := prepare (frame t) in
  diff ← difference (gray1 v) gray2 ;
  let thresh := mask diff in
  let contours := find thresh in
  '(motion_detected, motion_count) ← contour_loop frame2 contours false 0 ;
  annotate frame2 (timestamp t) motion_detected motion_count ;;
  '(last, notified) ← notify cfg t (last_notification_time v)
                                motion_detected motion_count ;
  with_frame frame2 (fun f => emit (Imshow "Security Feed" (inl f))) ;;
  emit (Imshow "Motion Detection" (inr thresh)) ;;
  let gray1 := if motion_detected : bool then gray1 v else gray2 in
  ctl ← handle_key t frame2 ;
  mret (ctl,
        {| gray1 := gray1; last_notification_time := last;
           frame_count := frame_count |},
        {| frame2 := frame2; gray2 := gray2; thresh := thresh;
           contours := contours; motion_detected := motion_detected;
           motion_count := motion_count; notified := notified |}).

(** Lines 105-188: [while True], over what the camera still has to give.
    Returns the variables at the end and the passes made. *)
Fixpoint main_loop (cfg : Config) (v : Vars) (stream : list Tick)
  : M (Vars * list Pass) :=
  match stream with
  | [] => print "End of video stream." ;; mret (v, [])
  | t :: rest =>
      '(ctl, v', p) ← loop_body cfg v t ;
      match ctl with
      | Break => mret (v', [p])
      | Continue =>
          '(v'', ps) ← main_loop cfg v' rest ;
          mret (v'', p :: ps)
      end
  end.

(** ** The program: [try: ... finally: ...] *)

(** What a run takes from outside. *)
Record Env := {
  config : Config;
  camera_opens : bool;            (* [cap.isOpened()] after [cv2.VideoCapture] *)
  first_frame : option Frame;     (* the first [cap.read()]; [None] when [ret] is false *)
  stream : list Tick;             (* the reads that follow, until the stream ends *)
}.

Definition VideoCapture (opens : bool) : M unit := fun w =>
  (Ret tt, {| objects := objects w; cap := Some opens; trace := trace w |}).

Definition isOpened : M bool := fun w =>
  (Ret (bool_decide (cap w = Some true)), w).

Definition release : M unit := fun w =>
  (Ret tt, {| objects := objects w; cap := Some false;
              trace := trace w ++ [CapRelease] |}).

(** [exit()] raises [SystemExit]. *)
Definition exit {A} : M A :=
  raise {| exc_class := SystemExit; exc_msg := "" |}.

(** Lines 72-104: everything before the loop; the loop's variables as they
    are on entry. *)
Definition startup (env : Env) : M Vars :=
  VideoCapture (camera_opens env) ;;
  opened ← isOpened ;
  if negb opened then
    print "✗ Error: Could not open video stream. Check camera permissions." ;;
    exit
  else
    print "✓ Camera opened successfully" ;;
    match first_frame env with
    | None =>
        print "✗ Error: Could not read from camera" ;;
        release ;;
        exit
    | Some f =>
        frame1 ← alloc f ;
        let gray1 := prepare f in
        let last_notification_time := 0%Q in
        print rule ;;
        print "✓ Motion detection started" ;;
        print rule ;;
        print "Controls:" ;;
        print "  - Press 'q' to quit" ;;
        print "  - Press 's' to save a snapshot" ;;
        print rule ;;
        let frame_count := 0%nat in
        mret {| gray1 := gray1;
                last_notification_time := last_notification_time;
                frame_count := frame_count |}
    end.

Definition try_block (env : Env) : M unit :=
  v ← startup env ;
  main_loop (config env) v (stream env) ;;
  mret tt.

(** Lines 190-198. *)
Definition finally_block : M unit :=
  opened ← isOpened ;
  (if opened : bool then release ;; print "✓ Camera released" else mret tt) ;;
  emit DestroyAllWindows ;;
  print "✓ All windows closed" ;;
  print "Motion detection stopped.".

Definition main (env : Env) : Result unit * World :=
  try_finally (try_block env) finally_block world0.

End Script.

(** ** An instance to run the script on

    Frames are BGR grids together with the draw calls applied to them, in
    order; grayscale conversion is the usual luma in 14-bit fixed point and
    the blur is left out. *)

Inductive DrawCall :=
  | Rectangle (pt1 pt2 : cv2.Point) (color : Scalar) (thickness : Z)
  | PutText (text : string) (org : cv2.Point) (font : HersheyFonts)
            (fontScale : Q) (color : Scalar) (thickness : Z).

Record Canvas := {
  pixels : list (list Scalar);
  drawn : list DrawCall;
}.

Definition luma (c : Scalar) : Z :=
  let '(b, g, r) := c in
  Z.shiftr (b * 1868 + g * 9617 + r * 4899 + 8192) 14.

Definition draw_on (f : Canvas) (d : DrawCall) : Canvas :=
  {| pixels := pixels f; drawn := drawn f ++ [d] |}.

#[global] Instance canvas_imaging : Imaging := {|
  Frame := Canvas;
  cvtColor f _ := map (map luma) (pixels f);
  GaussianBlur g _ _ := g;
  rectangle f pt1 pt2 color thickness :=
    draw_on f (Rectangle pt1 pt2 color thickness);
  putText f text org font scale color thickness :=
    draw_on f (PutText text org font scale color thickness);
|}.

(** A [h] x [w] grid that is [v] on the [bh] x [bw] block whose top-left
    corner is row [y0], column [x0], and [bg] elsewhere. *)
Definition block_grid {A} (h w y0 x0 bh bw : nat) (v bg : A) : list (list A) :=
  imap (fun y row =>
          imap (fun x _ =>
                  if ((y0 <=? y) && (y <? y0 + bh) && (x0 <=? x) && (x <? x0 + bw))%nat
                  then v else bg) row)
       (repeat (repeat bg w) h).

Definition shot (px : list (list Scalar)) : Canvas := {| pixels := px; drawn := [] |}.

Definition black : Scalar := (0, 0, 0).
Definition white : Scalar := (255, 255, 255).

Definition still : Canvas := shot (block_grid 26 26 0 0 0 0 white black).
Definition intruder : Canvas := shot (block_grid 26 26 3 3 20 20 white black).

Definition relay_ok : SmtpSession :=
  {| compose := None; connect := None; starttls := None; login := None;
     send_message := None; quit := None |}.

Definition cfg_ok : Config :=
  {| SENDER_EMAIL := Some "cam@example.org"%string;
     SENDER_PASSWORD := Some "app-password"%string;
     RECEIVER_EMAIL := Some "me@example.org"%string |}.

Definition tick (f : Canvas) (t_gate t_sent : Q) (net : SmtpSession) (k : Z) : Tick :=
  {| frame := f; timestamp := "2024-01-01 00:00:00"; clock_gate := t_gate;
     body_stamp := "2024-01-01 00:00:00"; smtp := net; clock_sent := t_sent;
     key := k; snapshot_stamp := "20240101_000000" |}.

(** A scene: the camera sees nothing but black, then a 20 x 20 white block
    (400 pixels); the clock of the gate reads 100 when the block first
    shows and the send takes three seconds. *)
Definition vars0 : Vars :=
  {| gray1 := prepare still; last_notification_time := 0; frame_count := 0 |}.

Definition t_still : Tick := tick still 90 90 relay_ok (-1).
Definition t_first : Tick := tick intruder 100 103 relay_ok (-1).
Definition t_close : Tick := tick intruder 130 131 relay_ok (-1).

Definition relay_rejects : SmtpSession :=
  {| compose := None; connect := None; starttls := None;
     login := Some {| exc_class := SMTPAuthenticationError;
                      exc_msg := "(535, b'5.7.8 Username and Password not accepted')" |};
     send_message := None; quit := None |}.

Definition t_rejected : Tick := tick intruder 100 103 relay_rejects (-1).


(** The difference map of the scene: 255 on the block, 0 around it. *)
Definition diff_block : cv2.Gray := block_grid 26 26 3 3 20 20 255 0.

(** What a pass returned, for passes that did return. *)
Definition pass0 : Pass :=
  {| frame2 := 0; gray2 := []; thresh := []; contours := [];
     motion_detected := false; motion_count := 0; notified := None |}.

Definition ctl_of (r : Result (Ctl * Vars * Pass) * World) : Ctl :=
  match fst r with Ret (c, _, _) => c | Raise _ => Break end.
Definition vars_of (r : Result (Ctl * Vars * Pass) * World) : Vars :=
  match fst r with Ret (_, v, _) => v | Raise _ => vars0 end.
Definition pass_of (r : Result (Ctl * Vars * Pass) * World) : Pass :=
  match fst r with Ret (_, _, p) => p | Raise _ => pass0 end.

(** The scene, run: the pass in which the block first shows, and the passes
    that may follow it. *)
Definition c_first : Ctl :=
  Eval vm_compute in ctl_of (loop_body cfg_ok vars0 t_first world0).
Definition v_first : Vars :=
  Eval vm_compute in vars_of (loop_body cfg_ok vars0 t_first world0).
Definition p_first : Pass :=
  Eval vm_compute in pass_of (loop_body cfg_ok vars0 t_first world0).
Definition w_first : World :=
  Eval vm_compute in snd (loop_body cfg_ok vars0 t_first world0).

Definition v_close : Vars :=
  Eval vm_compute in vars_of (loop_body cfg_ok v_first t_close w_first).
Definition p_close : Pass :=
  Eval vm_compute in pass_of (loop_body cfg_ok v_first t_close w_first).
Definition w_close : World :=
  Eval vm_compute in snd (loop_body cfg_ok v_first t_close w_first).


(** A pass, and a run of two passes, in front of the empty scene. *)
Definition v_still : Vars :=
  Eval vm_compute in vars_of (loop_body cfg_ok vars0 t_still world0).
Definition p_still : Pass :=
  Eval vm_compute in pass_of (loop_body cfg_ok vars0 t_still world0).
Definition w_still : World :=
  Eval vm_compute in snd (loop_body cfg_ok vars0 t_still world0).

Definition run_of (r : Result (Vars * list Pass) * World) : Vars * list Pass :=
  match fst r with Ret x => x | Raise _ => (vars0, []) end.

Definition quiet_run : Vars * list Pass :=
  Eval vm_compute in run_of (main_loop cfg_ok vars0 [t_still; t_still] world0).
Definition quiet_world : World :=
  Eval vm_compute in snd (main_loop cfg_ok vars0 [t_still; t_still] world0).


(** ** Vocabulary of the specification *)

(** A contour the area filter lets through. *)
Definition keeps (c : cv2.Contour) : bool :=
  negb (Qltb (cv2.contourArea c) MIN_CONTOUR_AREA).

(** The specification's [filterAndBound]: drop the contours whose area is
    below [minArea], bound the others.  Written after the specification, to
    be compared with [contour_loop]. *)
Definition filterAndBound (cs : list cv2.Contour) (minArea : Q)
  : list (Z * Z * Z * Z) :=
  map cv2.boundingRect
      (List.filter (fun c => negb (Qltb (cv2.contourArea c) minArea)) cs).

(** The green box of line 146 around a rectangle [(x, y, w, h)]. *)
Definition boxed `{Imaging} (f : Frame) (r : Z * Z * Z * Z) : Frame :=
  let '(x, y, w, h) := r in
  rectangle f (x, y) (x + w, y + h) (0, 255, 0) 2.

(** A frame with everything one pass draws on it. *)
Definition annotated `{Imaging} (f : Frame) (regions : list (Z * Z * Z * Z))
    (timestamp : string) : Frame :=
  let f1 := fold_left boxed regions f in
  let f2 := putText f1 timestamp (10, 30) FONT_HERSHEY_SIMPLEX (7 # 10)
                    (255, 255, 255) 2 in
  match regions with
  | [] => f2
  | _ => putText f2 ("MOTION DETECTED (" ++ str_nat (length regions) ++ " objects)")
                 (10, 70) FONT_HERSHEY_SIMPLEX (7 # 10) (0, 0, 255) 2
  end.

(** An image every sample of which is zero. *)
Definition all_zero (m : cv2.Gray) : Prop := Forall (Forall (eq 0)) m.



(** Events that neither release the camera nor tear the windows down. *)
Definition benign `{Imaging} (ev : Event) : Prop :=
  ev <> CapRelease /\ ev <> DestroyAllWindows.

(** The exceptions a session is set to raise. *)
Definition raised (net : SmtpSession) : list exn :=
  omap id [compose net; connect net; starttls net; login net;
           send_message net; quit net].

(** A printed line that reports an error. *)
Definition is_diagnostic (line : string) : bool :=
  String.prefix "Error" line || String.prefix "✗" line.

(** The teardown the [finally] block ends with. *)
Definition teardown `{Imaging} : list Event :=
  [DestroyAllWindows; Stdout "✓ All windows closed";
   Stdout "Motion detection stopped."].

(** [advances w w']: from [w] to [w'] the camera handle was left alone and
    only benign events were added.  [same_store]: no frame array was
    allocated or drawn on.  [respects R m]: however [m] ends, it moves the
    world along [R]. *)
Definition advances `{Imaging} (w w' : World) : Prop :=
  cap w' = cap w /\
  exists evs, trace w' = trace w ++ evs /\ Forall benign evs.

Definition same_store `{Imaging} (w w' : World) : Prop :=
  objects w' = objects w.

Definition respects `{Imaging} (R : World -> World -> Prop) {A} (m : M A) : Prop :=
  forall w r w', m w = (r, w') -> R w w'.

(** The frames of a stream the loop gets to: up to and including the first
    at which [q] is pressed. *)
Definition is_quit `{Imaging} (t : Tick) : bool := Z.land (key t) 255 =? 113.

Fixpoint until_quit `{Imaging} (stream : list Tick) : list Tick :=
  match stream with
  | [] => []
  | t :: rest => if is_quit t then [t] else t :: until_quit rest
  end.

(** A second successful alert, more than a minute after the first. *)
Definition t_late : Tick := tick intruder 164 166 relay_ok (-1).

Definition alert_run : Vars * list Pass :=
  Eval vm_compute in run_of (main_loop cfg_ok vars0 [t_first; t_close; t_late] world0).
Definition alert_world : World :=
  Eval vm_compute in snd (main_loop cfg_ok vars0 [t_first; t_close; t_late] world0).

(** A change too faint for the sensitivity: the block at gray level 20. *)
Definition faint : Canvas := shot (block_grid 26 26 3 3 20 20 (20, 20, 20) black).
Definition t_faint : Tick := tick faint 100 103 relay_ok (-1).


(** A stream in which [q] is pressed at the second frame of three; the key
    code carries a modifier bit above the low byte. *)
Definition t_quit : Tick := tick intruder 130 131 relay_ok (113 + 1048576).
Definition quit_run : Vars * list Pass :=
  Eval vm_compute in run_of (main_loop cfg_ok vars0 [t_still; t_quit; t_late] world0).
Definition quit_world : World :=
  Eval vm_compute in snd (main_loop cfg_ok vars0 [t_still; t_quit; t_late] world0).

Definition env_long : Env :=
  {| config := cfg_ok; camera_opens := true; first_frame := Some still;
     stream := [t_still; t_rejected; t_first] |}.

(** [adds p w w']: from [w] to [w'] only events for which [p] holds were
    added to the trace. *)
Definition adds `{Imaging} (p : Event -> bool) (w w' : World) : Prop :=
  exists evs, trace w' = trace w ++ evs /\ Forall (fun ev => p ev = true) evs.

(** Events that talk to the mail relay. *)
Definition is_smtp `{Imaging} (ev : Event) : bool :=
  match ev with
  | SmtpConnect _ _ | SmtpStartTLS | SmtpLogin _ _ | SmtpSendMessage _ | SmtpQuit => true
  | _ => false
  end.

(** The files written by a list of events. *)
Definition snapshots `{Imaging} (evs : list Event) : list (string * Frame) :=
  omap (fun ev => match ev with Imwrite name f => Some (name, f) | _ => None end) evs.

(** A frame of another size, and environments that fail early. *)
Definition small : Canvas := shot (block_grid 2 2 0 0 0 0 white black).
Definition t_small : Tick := tick small 100 103 relay_ok (-1).

Definition env_resized : Env :=
  {| config := cfg_ok; camera_opens := true; first_frame := Some still;
     stream := [t_small; t_first] |}.

Definition env_no_camera : Env :=
  {| config := cfg_ok; camera_opens := false; first_frame := Some still;
     stream := [t_first] |}.

Definition cfg_no_password : Config :=
  {| SENDER_EMAIL := Some "cam@example.org"%string;
     SENDER_PASSWORD := None;
     RECEIVER_EMAIL := Some "me@example.org"%string |}.

Definition env_no_password : Env :=
  {| config := cfg_no_password; camera_opens := true; first_frame := Some still;
     stream := [t_first; t_late] |}.

(** The block shows and [s] is pressed. *)
Definition t_snap : Tick := tick intruder 100 103 relay_ok 115.
Definition v_snap : Vars :=
  Eval vm_compute in vars_of (loop_body cfg_ok vars0 t_snap world0).
Definition p_snap : Pass :=
  Eval vm_compute in pass_of (loop_body cfg_ok vars0 t_snap world0).
Definition w_snap : World :=
  Eval vm_compute in snd (loop_body cfg_ok vars0 t_snap world0).

Definition v_quit : Vars :=
  Eval vm_compute in vars_of (loop_body cfg_ok vars0 t_quit world0).
Definition p_quit : Pass :=
  Eval vm_compute in pass_of (loop_body cfg_ok vars0 t_quit world0).
Definition w_quit : World :=
  Eval vm_compute in snd (loop_body cfg_ok vars0 t_quit world0).

(** Events that write a file, and the two tests negated. *)
Definition writes_file `{Imaging} (ev : Event) : bool :=
  match ev with Imwrite _ _ => true | _ => false end.

Definition no_file `{Imaging} (ev : Event) : bool := negb (writes_file ev).
Definition no_smtp `{Imaging} (ev : Event) : bool := negb (is_smtp ev).

(** The calls one notification makes on the relay, in the order the script
    makes them. *)
Definition relay_calls (cfg : Config) `{Imaging} (subject body : string) : list Event :=
  [SmtpConnect SMTP_SERVER SMTP_PORT; SmtpStartTLS;
   SmtpLogin (SENDER_EMAIL cfg) (SENDER_PASSWORD cfg);
   SmtpSendMessage {| content := body; Subject := subject;
                      From := SENDER_EMAIL cfg; To := RECEIVER_EMAIL cfg |}].



(** Images as OpenCV holds them have rows of one length; a mask takes the
    values 0 and 255 only. *)
Definition rectangular (W : nat) (m : cv2.Gray) : Prop :=
  Forall (fun row => length row = W) m.

Definition two_valued (m : cv2.Gray) : Prop :=
  forall y x, cv2.at_ m y x = 0 \/ cv2.at_ m y x = 255.

(** A change that stays within the sensitivity at every sample, and a
    stream in which every frame is such a change of the one before it. *)
Definition faint_change (ref g : cv2.Gray) : bool :=
  match cv2.absdiff ref g with
  | Some diff => forallb (forallb (fun d => d <=? MOTION_THRESHOLD)) diff
  | None => false
  end.

Fixpoint drifting `{Imaging} (ref : cv2.Gray) (stream : list Tick) : bool :=
  match stream with
  | [] => true
  | t :: rest =>
      faint_change ref (prepare (frame t)) && drifting (prepare (frame t)) rest
  end.

(** Events that put nothing on screen and write no file. *)
Definition off_screen `{Imaging} (ev : Event) : bool :=
  match ev with Imshow _ _ | Imwrite _ _ => false | _ => true end.


(** The levels of a slow drift, and a relay on which the login is
    interrupted from the keyboard. *)
Definition dim2 : Canvas := shot (block_grid 26 26 3 3 20 20 (40, 40, 40) black).
Definition dim3 : Canvas := shot (block_grid 26 26 3 3 20 20 (60, 60, 60) black).
Definition t_dim2 : Tick := tick dim2 200 203 relay_ok (-1).
Definition t_dim3 : Tick := tick dim3 300 303 relay_ok (-1).

Definition relay_interrupted : SmtpSession :=
  {| compose := None; connect := None; starttls := None;
     login := Some {| exc_class := KeyboardInterrupt; exc_msg := "" |};
     send_message := None; quit := None |}.

Definition t_interrupted : Tick := tick intruder 100 103 relay_interrupted (-1).

(** The difference map of the faint scene, and a notification the relay
    rejects. *)
Definition diff_faint : cv2.Gray := block_grid 26 26 3 3 20 20 20 0.

Definition rejected_send : Result bool * World :=
  Eval vm_compute in send_notification cfg_ok relay_rejects "subject" "body" world0.

(** ** Properties *)

Section Properties.
Context `{Imaging}.

Implicit Types (w : World) (v : Vars) (t : Tick) (cfg : Config).

(** *** The store-and-exception monad *)

Lemma bind_ret_inv {A B} (m : M A) (f : A -> M B) w b w' :
  (m ≫= f) w = (Ret b, w') ->
  exists a w1, m w = (Ret a, w1) /\ f a w1 = (Ret b, w').
Proof.
  unfold mbind, M_bind. destruct (m w) as [[a|e] w1]; [eauto | discriminate].
Qed.

Lemma bind_ret {A B} (m : M A) (f : A -> M B) w a w1 :
  m w = (Ret a, w1) -> (m ≫= f) w = f a w1.
Proof. intros E. unfold mbind, M_bind. now rewrite E. Qed.

Lemma bind_raise {A B} (m : M A) (f : A -> M B) w e w1 :
  m w = (Raise e, w1) -> (m ≫= f) w = (Raise e, w1).
Proof. intros E. unfold mbind, M_bind. now rewrite E. Qed.

Lemma Qltb_lt x y : Qltb x y = true <-> (x < y)%Q.
Proof.
  unfold Qltb. rewrite negb_true_iff, <- not_true_iff_false, Qle_bool_iff.
  split; [apply Qnot_le_lt | apply Qlt_not_le].
Qed.

Lemma keeps_spec c : keeps c = true <-> ~ (cv2.contourArea c < MIN_CONTOUR_AREA)%Q.
Proof.
  unfold keeps. rewrite negb_true_iff, <- not_true_iff_false, Qltb_lt. tauto.
Qed.

(** *** The threshold *)

Lemma lookup2_map {A B} (g : A -> B) (m : list (list A)) (y x : nat) :
  (map (map g) m) !! y ≫= (.!! x) = g <$> (m !! y ≫= (.!! x)).
Proof.
  rewrite list_lookup_fmap. destruct (m !! y) as [row|]; simpl; [|done].
  apply list_lookup_fmap.
Qed.

(** C7: in the mask line 122 computes, a sample is 255 where the difference
    is strictly above [MOTION_THRESHOLD] (25) and 0 elsewhere, sample by
    sample; the mask has the shape of the difference map. *)
Theorem C7_threshold_binary (diff : cv2.Gray) :
  MOTION_THRESHOLD = 25 /\
  cv2.shape (snd (cv2.threshold diff MOTION_THRESHOLD 255 cv2.THRESH_BINARY))
    = cv2.shape diff /\
  forall y x : nat,
    snd (cv2.threshold diff MOTION_THRESHOLD 255 cv2.THRESH_BINARY) !! y ≫= (.!! x)
    = (fun d => if MOTION_THRESHOLD <? d then 255 else 0) <$> (diff !! y ≫= (.!! x)).
Proof.
  split; [reflexivity|]. split.
  - unfold cv2.shape, cv2.threshold. simpl. rewrite map_map.
    apply map_ext. intros row. apply length_map.
  - intros y x. unfold cv2.threshold. simpl. apply lookup2_map.
Qed.

(** *** The contour filter *)

Lemma alter_alter {A} (f g : A -> A) (l : nat) (xs : list A) :
  alter g l (alter f l xs) = alter (fun a => g (f a)) l xs.
Proof. apply (list_alter_alter_eq g f). Qed.

Lemma contour_loop_spec cs : forall l md mc w,
  contour_loop l cs md mc w =
  (Ret (md || existsb keeps cs, (mc + length (List.filter keeps cs))%nat),
   {| objects := alter (fun f => fold_left boxed
                                   (map cv2.boundingRect (List.filter keeps cs)) f)
                       l (objects w);
      cap := cap w; trace := trace w |}).
Proof.
  induction cs as [|c cs IH]; intros l md mc w.
  - simpl. rewrite orb_false_r, Nat.add_0_r, list_alter_id by done. now destruct w.
  - cbn [contour_loop existsb List.filter].
    assert (K : keeps c = negb (Qltb (cv2.contourArea c) MIN_CONTOUR_AREA))
      by reflexivity.
    destruct (Qltb (cv2.contourArea c) MIN_CONTOUR_AREA); rewrite K; simpl negb; cbv iota.
    + apply IH.
    + destruct (cv2.boundingRect c) as [[[x y] bw] bh] eqn:Eb.
      erewrite bind_ret by reflexivity. rewrite IH. simpl.
      rewrite alter_alter, orb_true_r, Nat.add_succ_r, Eb. reflexivity.
Qed.

Lemma existsb_filter_length {A} (f : A -> bool) (l : list A) :
  existsb f l = (0 <? length (List.filter f l))%nat.
Proof.
  induction l as [|a l IH]; simpl; [done|].
  destruct (f a); simpl; [done | exact IH].
Qed.

Lemma filter_keeps_In (cs : list cv2.Contour) c :
  In c (List.filter keeps cs) <->
  In c cs /\ ~ (cv2.contourArea c < MIN_CONTOUR_AREA)%Q.
Proof. rewrite filter_In, keeps_spec. tauto. Qed.

(** C1: whatever contours line 128 hands over, the [for] loop of lines
    134-146 passes over exactly those whose [contourArea] is strictly below
    [MIN_CONTOUR_AREA] (500); it leaves [motion_detected] true precisely when
    some contour got through and [motion_count] at the number that did, and
    it has boxed the bounding rectangle of each of them (the
    specification's [filterAndBound]) on the frame. *)
Theorem C1_contour_filter (l : loc) (cs : list cv2.Contour) w :
  let survivors := List.filter keeps cs in
  (MIN_CONTOUR_AREA == 500)%Q /\
  (forall c, In c survivors <->
             In c cs /\ ~ (cv2.contourArea c < MIN_CONTOUR_AREA)%Q) /\
  contour_loop l cs false 0 w =
    (Ret ((0 <? length survivors)%nat, length survivors),
     {| objects := alter (fun f => fold_left boxed
                                     (filterAndBound cs MIN_CONTOUR_AREA) f)
                         l (objects w);
        cap := cap w; trace := trace w |}).
Proof.
  intros survivors. split; [reflexivity|]. split.
  - intros c. apply filter_keeps_In.
  - rewrite contour_loop_spec. simpl. now rewrite existsb_filter_length.
Qed.

(** *** Images without change *)

Lemma at_all_zero (m : cv2.Gray) y x : all_zero m -> cv2.at_ m y x = 0.
Proof.
  intros Hz. unfold cv2.at_. destruct ((y <? 0) || (x <? 0)); [done|].
  destruct (m !! Z.to_nat y) as [row|] eqn:Er; simpl; [|done].
  destruct (row !! Z.to_nat x) as [d|] eqn:Ed; simpl; [|done].
  unfold all_zero in Hz. rewrite Forall_lookup in Hz.
  specialize (Hz _ _ Er). rewrite Forall_lookup in Hz. symmetry. eauto.
Qed.

Lemma all_zero_map {A} (m : list (list A)) (g : A -> Z) :
  (forall a, g a = 0) -> all_zero (map (map g) m).
Proof.
  intros Hg. unfold all_zero. apply Forall_fmap, Forall_true. intros row.
  apply Forall_fmap, Forall_true. intros a. simpl. now rewrite Hg.
Qed.

Lemma absdiff_diag (g : cv2.Gray) :
  cv2.absdiff g g = Some (map (map (fun _ => 0)) g).
Proof.
  unfold cv2.absdiff. rewrite decide_True by done. f_equal.
  rewrite zip_with_diag. apply map_ext. intros row.
  rewrite zip_with_diag. apply map_ext. intros d.
  now rewrite Z.sub_diag.
Qed.

Lemma threshold_all_zero (m : cv2.Gray) :
  all_zero m ->
  all_zero (snd (cv2.threshold m MOTION_THRESHOLD 255 cv2.THRESH_BINARY)).
Proof.
  intros Hz. unfold cv2.threshold, all_zero in *. simpl.
  apply Forall_fmap. eapply Forall_impl; [exact Hz|]. intros row Hrow. simpl.
  apply Forall_fmap. eapply Forall_impl; [exact Hrow|]. intros d <-. reflexivity.
Qed.

Lemma dilate3x3_all_zero (m : cv2.Gray) : all_zero m -> all_zero (cv2.dilate3x3 m).
Proof.
  intros Hz. unfold all_zero, cv2.dilate3x3. apply Forall_lookup. intros y row'.
  rewrite list_lookup_imap. intros (row & _ & ->)%fmap_Some.
  apply Forall_lookup. intros x d.
  rewrite list_lookup_imap. intros (d0 & _ & ->)%fmap_Some.
  unfold cv2.dilate_px, cv2.kernel3x3. simpl. now rewrite !at_all_zero.
Qed.

Lemma dilate_all_zero (m : cv2.Gray) n : all_zero m -> all_zero (cv2.dilate m n).
Proof.
  intros Hz. unfold cv2.dilate. induction n as [|n IH]; simpl; [done|].
  now apply dilate3x3_all_zero.
Qed.

Lemma mask_all_zero (diff : cv2.Gray) : all_zero diff -> all_zero (mask diff).
Proof. intros Hz. unfold mask. now apply dilate_all_zero, threshold_all_zero. Qed.

Lemma find_all_zero (m : cv2.Gray) : all_zero m -> find m = [].
Proof.
  intros Hz. unfold find, cv2.findContours. simpl.
  generalize (cv2.positions m) as ps.
  assert (Hacc : forall ps acc,
             fold_left (cv2.scan_step m (cv2.outer_background m)) ps acc = acc).
  { induction ps as [|p ps IH]; intros acc; simpl; [done|].
    rewrite <- (IH acc) at 2. f_equal. unfold cv2.scan_step, cv2.fg.
    now rewrite at_all_zero. }
  intros ps. now rewrite Hacc.
Qed.

(** *** How the script's pieces move the world *)

#[local] Instance advances_preorder : PreOrder advances.
Proof.
  split.
  - intros w. split; [done|]. exists []. now rewrite app_nil_r.
  - intros w1 w2 w3 [Hc1 (e1 & Ht1 & Hb1)] [Hc2 (e2 & Ht2 & Hb2)]. split.
    + congruence.
    + exists (e1 ++ e2). rewrite Ht2, Ht1, app_assoc. split; [done|].
      now apply Forall_app.
Qed.

#[local] Instance same_store_preorder : PreOrder same_store.
Proof.
  split; [now intros w | intros w1 w2 w3 H1 H2; unfold same_store in *; congruence].
Qed.

Section Respects.
Context (R : World -> World -> Prop) `{!PreOrder R}.

Lemma respects_ret {A} (a : A) : respects R (mret a).
Proof. intros w r w' [= _ <-]. reflexivity. Qed.

Lemma respects_raise {A} e : respects R (raise (A := A) e).
Proof. intros w r w' [= _ <-]. reflexivity. Qed.

Lemma respects_bind {A B} (m : M A) (f : A -> M B) :
  respects R m -> (forall a, respects R (f a)) -> respects R (m ≫= f).
Proof.
  intros Hm Hf w r w'. unfold mbind, M_bind.
  destruct (m w) as [[a|e] w1] eqn:E.
  - intros Hk. etransitivity; [exact (Hm _ _ _ E) | exact (Hf _ _ _ _ Hk)].
  - intros [= _ <-]. exact (Hm _ _ _ E).
Qed.

Lemma respects_may_raise o : respects R (may_raise o).
Proof. destruct o; [apply respects_raise | apply respects_ret]. Qed.

Lemma respects_dispatch {A} e (clauses : list (ExcClass * (exn -> M A))) :
  Forall (fun ch => forall e, respects R (snd ch e)) clauses ->
  respects R (dispatch e clauses).
Proof.
  induction 1 as [|[c h] rest Hh _ IH]; simpl; [apply respects_raise|].
  destruct (isinstance e c); [apply Hh | exact IH].
Qed.

Lemma respects_try_except {A} (body : M A) clauses :
  respects R body ->
  Forall (fun ch => forall e, respects R (snd ch e)) clauses ->
  respects R (try_except body clauses).
Proof.
  intros Hb Hc w r w'. unfold try_except.
  destruct (body w) as [[a|e] w1] eqn:E.
  - intros [= _ <-]. exact (Hb _ _ _ E).
  - intros Hd. etransitivity; [exact (Hb _ _ _ E)|].
    exact (respects_dispatch e clauses Hc _ _ _ Hd).
Qed.

Lemma respects_try_finally {A} (body : M A) (fin : M unit) :
  respects R body -> respects R fin -> respects R (try_finally body fin).
Proof.
  intros Hb Hf w r w'. unfold try_finally.
  destruct (body w) as [r1 w1] eqn:E. destruct (fin w1) as [[[]|e] w2] eqn:E2;
    intros [= _ <-]; (etransitivity; [exact (Hb _ _ _ E) | exact (Hf _ _ _ E2)]).
Qed.

Lemma respects_with_frame l (k : Frame -> M unit) :
  (forall f, respects R (k f)) -> respects R (with_frame l k).
Proof.
  intros Hk w r w'. unfold with_frame. destruct (objects w !! l).
  - apply Hk.
  - intros [= _ <-]. reflexivity.
Qed.

End Respects.

Lemma emit_advances ev : benign ev -> respects advances (emit ev).
Proof.
  intros Hb w r w' [= _ <-]. split; [done|]. exists [ev]. split; [done|].
  now constructor.
Qed.

Lemma print_advances line : respects advances (print line).
Proof. apply emit_advances. split; discriminate. Qed.

Lemma emit_same_store ev : respects same_store (emit ev).
Proof. now intros w r w' [= _ <-]. Qed.

Lemma alloc_advances f : respects advances (alloc f).
Proof. intros w r w' [= _ <-]. split; [done|]. exists []. now rewrite app_nil_r. Qed.

Lemma draw_advances l op : respects advances (draw l op).
Proof. intros w r w' [= _ <-]. split; [done|]. exists []. now rewrite app_nil_r. Qed.

(** One step of a proof that a block [respects] a relation. *)
Ltac respects_step :=
  match goal with
  | |- respects ?R (mret _) => apply (respects_ret R)
  | |- respects ?R (raise _) => apply (respects_raise R)
  | |- respects ?R (may_raise _) => apply (respects_may_raise R)
  | |- respects ?R (_ ≫= _) => apply (respects_bind R); [ | intros ?]
  | |- respects ?R (try_except _ _) => apply (respects_try_except R)
  | |- respects ?R (try_finally _ _) => apply (respects_try_finally R)
  | |- respects ?R (with_frame _ _) => apply (respects_with_frame R); intros ?
  | |- Forall _ (_ :: _) => constructor; [intros ?; simpl | ]
  | |- Forall _ [] => constructor
  | |- respects advances (print _) => apply print_advances
  | |- respects advances (emit _) => apply emit_advances; split; discriminate
  | |- respects advances (alloc _) => apply alloc_advances
  | |- respects advances (draw _ _) => apply draw_advances
  | |- respects same_store (print _) => apply emit_same_store
  | |- respects same_store (emit _) => apply emit_same_store
  | |- respects _ (call _ _) => unfold call
  | |- respects _ (if ?b then _ else _) => destruct b
  | |- respects _ (match ?o with _ => _ end) => destruct o
  | |- respects _ (let _ := _ in _) => cbv zeta
  end.

Lemma send_notification_advances cfg net subject body :
  respects advances (send_notification cfg net subject body).
Proof. unfold send_notification. repeat respects_step. Qed.

Lemma send_notification_same_store cfg net subject body :
  respects same_store (send_notification cfg net subject body).
Proof. unfold send_notification. repeat respects_step. Qed.

(** *** [send_notification] *)

(** Run the effects of a block whose calls are all known. *)
Ltac run_in E :=
  unfold mbind, M_bind, call, may_raise, try_finally, raise, print, emit,
         mret, M_ret in E;
  simpl in E.

(** Decide the [isinstance] tests on exceptions whose class is known. *)
Ltac eval_isinstance :=
  repeat match goal with
         | |- context [isinstance ?e ?c] =>
             let b := eval vm_compute in (isinstance e c) in
             change (isinstance e c) with b
         end;
  cbv iota.

Lemma dispatch_Exception (e : exn) w :
  isinstance e Exception = true ->
  exists lines,
    dispatch e
      [ (SMTPAuthenticationError, fun _ =>
           print "✗ Error: SMTP Authentication Failed." ;;
           print "  - Ensure you're using a Google App Password, not your regular account password" ;;
           print "  - Check that SENDER_EMAIL and SENDER_PASSWORD are correct in .env file" ;;
           mret false);
        (SMTPException, fun e =>
           print ("✗ Error sending email: " ++ exc_msg e) ;;
           mret false);
        (Exception, fun e =>
           print ("✗ An unexpected error occurred: " ++ exc_msg e) ;;
           mret false) ] w
    = (Ret false, {| objects := objects w; cap := cap w;
                     trace := trace w ++ map Stdout lines |}) /\
    exists line, In line lines /\ is_diagnostic line = true.
Proof.
  destruct e as [c msg]. intros Hi. cbn [dispatch].
  destruct c; try (now vm_compute in Hi); eval_isinstance;
    unfold mbind, M_bind, print, emit, mret, M_ret; cbn [objects cap trace exc_msg];
    rewrite <- ?app_assoc; cbn [app].
  - eexists [_; _; _]. split; [reflexivity|].
    eexists. split; [left; reflexivity | reflexivity].
  - eexists [_]. split; [reflexivity|].
    eexists. split; [left; reflexivity | reflexivity].
  - eexists [_]. split; [reflexivity|].
    eexists. split; [left; reflexivity | reflexivity].
  - eexists [_]. split; [reflexivity|].
    eexists. split; [left; reflexivity | reflexivity].
Qed.

Lemma dispatch_BaseException {A} (e : exn) (h1 h2 h3 : exn -> M A) w :
  isinstance e Exception = false ->
  dispatch e [(SMTPAuthenticationError, h1); (SMTPException, h2); (Exception, h3)] w
  = (Raise e, w).
Proof.
  destruct e as [c msg]. intros Hi. cbn [dispatch].
  destruct c; try (now vm_compute in Hi); eval_isinstance; reflexivity.
Qed.

(** How [send_notification] can end: [True] with a password and a relay
    that raises nothing; [False], after a diagnostic, without a password or
    when a call raised an [Exception]; and an exception escapes only when it
    is not an [Exception] at all. *)
Lemma send_notification_cases cfg net subject body w :
  exists r w',
    send_notification cfg net subject body w = (r, w') /\
    match r with
    | Ret true => truthy (SENDER_PASSWORD cfg) = true /\ raised net = []
    | Ret false =>
        (truthy (SENDER_PASSWORD cfg) = false \/ raised net <> []) /\
        exists evs line,
          trace w' = trace w ++ evs /\ In (Stdout line) evs /\
          is_diagnostic line = true
    | Raise e =>
        truthy (SENDER_PASSWORD cfg) = true /\ In e (raised net) /\
        isinstance e Exception = false
    end.
Proof.
  pose proof (send_notification_advances cfg net subject body) as Hadv.
  revert Hadv. unfold send_notification.
  destruct (truthy (SENDER_PASSWORD cfg)) eqn:Hpw; cbn [negb]; intros Hadv.
  2:{ eexists _, _. split; [reflexivity|]. split; [now left|].
      eexists [_], _. split; [reflexivity|]. split; [now left | reflexivity]. }
  match type of Hadv with
  | respects _ (try_except ?b ?c) => set (attempt := b) in *; set (clauses := c) in *
  end.
  assert (Hb : (raised net = [] /\ exists w1, attempt w = (Ret true, w1)) \/
               (exists e w1, attempt w = (Raise e, w1) /\ In e (raised net) /\
                             advances w w1)).
  { assert (Ha : respects advances attempt) by (subst attempt; repeat respects_step).
    destruct (attempt w) as [[b|e] w1] eqn:E.
    - left. subst attempt.
      destruct net as [[?|] [?|] [?|] [?|] [?|] [?|]]; try discriminate E.
      split; [reflexivity|]. exists w1. run_in E. now injection E as <- <-.
    - right. exists e, w1. split; [done|]. split; [|exact (Ha _ _ _ E)].
      subst attempt.
      destruct net as [[?|] [?|] [?|] [?|] [?|] [?|]];
        run_in E; try discriminate E; injection E as <- _; cbn; auto 10. }
  unfold try_except. destruct Hb as [[Hnil (w1 & ->)] | (e & w1 & -> & Hin & Hw1)].
  - eexists _, _. split; [reflexivity|]. done.
  - destruct (isinstance e Exception) eqn:Hi.
    + destruct (dispatch_Exception e w1 Hi) as (lines & Hd & line & Hl & Hdiag).
      eexists _, _. split; [exact Hd|]. split.
      * right. intros Hnil. now rewrite Hnil in Hin.
      * destruct Hw1 as [_ (evs & Ht & _)].
        exists (evs ++ map Stdout lines), line. cbn [trace]. rewrite Ht, app_assoc.
        split; [done|]. split; [|done].
        apply in_or_app. right. now apply in_map.
    + eexists _, _. split; [apply (dispatch_BaseException e _ _ _ w1 Hi)|]. done.
Qed.

(** *** One pass of the loop *)

Ltac respects_tac :=
  repeat first [ respects_step
               | apply send_notification_advances
               | apply send_notification_same_store ].

Lemma notify_advances cfg t last md mc :
  respects advances (notify cfg t last md mc).
Proof. unfold notify. respects_tac. Qed.

Lemma notify_same_store cfg t last md mc :
  respects same_store (notify cfg t last md mc).
Proof. unfold notify. respects_tac. Qed.

Lemma handle_key_advances t l : respects advances (handle_key t l).
Proof. unfold handle_key. respects_tac. Qed.

Lemma handle_key_same_store t l : respects same_store (handle_key t l).
Proof. unfold handle_key. respects_tac. Qed.

(** The gate of line 158 and what lines 159-166 leave behind. *)
Lemma notify_cases cfg t last md mc w :
  exists r w',
    notify cfg t last md mc w = (r, w') /\
    let gate := md && Qltb NOTIFICATION_DELAY (clock_gate t - last) in
    match r with
    | Ret (last', None) => gate = false /\ last' = last /\ w' = w
    | Ret (last', Some true) =>
        gate = true /\ last' = clock_sent t /\
        truthy (SENDER_PASSWORD cfg) = true /\ raised (smtp t) = []
    | Ret (last', Some false) =>
        gate = true /\ last' = last /\
        (truthy (SENDER_PASSWORD cfg) = false \/ raised (smtp t) <> [])
    | Raise e =>
        gate = true /\ In e (raised (smtp t)) /\ isinstance e Exception = false
    end.
Proof.
  unfold notify.
  destruct (md && Qltb NOTIFICATION_DELAY (clock_gate t - last)) eqn:G; cbv zeta.
  2:{ eexists _, _. split; [reflexivity|]. done. }
  match goal with
  | |- context [send_notification cfg (smtp t) ?subject ?body] =>
      destruct (send_notification_cases cfg (smtp t) subject body w)
        as (r & w1 & E & Hr)
  end.
  destruct r as [[|]|e].
  - eexists _, _. split; [erewrite bind_ret by exact E; reflexivity|].
    destruct Hr. done.
  - eexists _, _. split; [erewrite bind_ret by exact E; reflexivity|].
    destruct Hr. done.
  - eexists _, _. split; [erewrite bind_raise by exact E; reflexivity|].
    destruct Hr as (? & ? & ?). done.
Qed.

Lemma handle_key_cases t l w :
  exists w',
    handle_key t l w
    = (Ret (if Z.land (key t) 255 =? 113 then Break else Continue), w').
Proof.
  unfold handle_key. cbv zeta. destruct (Z.land (key t) 255 =? 113).
  - eexists. reflexivity.
  - destruct (Z.land (key t) 255 =? 115); [|eexists; reflexivity].
    unfold with_frame, mbind, M_bind. destruct (objects w !! l); eexists; reflexivity.
Qed.

Lemma alter_fresh {A} (f : A -> A) (xs : list A) (a : A) :
  alter f (length xs) (xs ++ [a]) = xs ++ [f a].
Proof. rewrite <- (Nat.add_0_r (length xs)) at 1. now rewrite alter_app_r. Qed.

Lemma annotated_eq (f : Frame) cs ts :
  let md := existsb keeps cs in
  let mc := length (List.filter keeps cs) in
  let f1 := fold_left boxed (map cv2.boundingRect (List.filter keeps cs)) f in
  let f2 := putText f1 ts (10, 30) FONT_HERSHEY_SIMPLEX (7 # 10) (255, 255, 255) 2 in
  (if md
   then putText f2 ("MOTION DETECTED (" ++ str_nat mc ++ " objects)") (10, 70)
                FONT_HERSHEY_SIMPLEX (7 # 10) (0, 0, 255) 2
   else f2)
  = annotated f (filterAndBound cs MIN_CONTOUR_AREA) ts.
Proof.
  cbv zeta. unfold annotated, filterAndBound. fold keeps.
  rewrite existsb_filter_length, length_map.
  now destruct (List.filter keeps cs).
Qed.

Lemma annotate_spec l ts md mc w :
  annotate l ts md mc w =
  (Ret tt,
   {| objects :=
        alter (fun f =>
                 let f2 := putText f ts (10, 30) FONT_HERSHEY_SIMPLEX (7 # 10)
                                   (255, 255, 255) 2 in
                 if md
                 then putText f2 ("MOTION DETECTED (" ++ str_nat mc ++ " objects)")
                              (10, 70) FONT_HERSHEY_SIMPLEX (7 # 10) (0, 0, 255) 2
                 else f2) l (objects w);
      cap := cap w; trace := trace w |}).
Proof.
  unfold annotate, mbind, M_bind, draw, mret, M_ret. cbn [objects cap trace].
  destruct md; [|reflexivity]. cbn [objects cap trace]. now rewrite alter_alter.
Qed.

(** One pass, symbolically: the world in which the gate is tried, and what
    the pass returns once [notify] has. *)
Lemma loop_body_cases cfg v t w :
  let l := length (objects w) in
  let g2 := prepare (frame t) in
  match cv2.absdiff (gray1 v) g2 with
  | None =>
      exists e w', loop_body cfg v t w = (Raise e, w') /\
                   exc_class e = cv2_error /\ advances w w'
  | Some diff =>
      let cs := find (mask diff) in
      let md := existsb keeps cs in
      let mc := length (List.filter keeps cs) in
      let w1 := {| objects := objects w ++
                     [annotated (frame t) (filterAndBound cs MIN_CONTOUR_AREA)
                                (timestamp t)];
                   cap := cap w; trace := trace w |} in
      exists r w2,
        notify cfg t (last_notification_time v) md mc w1 = (r, w2) /\
        match r with
        | Raise e => loop_body cfg v t w = (Raise e, w2)
        | Ret (last', ntf) =>
            exists w',
              loop_body cfg v t w =
              (Ret (if Z.land (key t) 255 =? 113 then Break else Continue,
                    {| gray1 := if md then gray1 v else g2;
                       last_notification_time := last';
                       frame_count := S (frame_count v) |},
                    {| frame2 := l; gray2 := g2; thresh := mask diff;
                       contours := cs; motion_detected := md;
                       motion_count := mc; notified := ntf |}), w') /\
              objects w' = objects w1 /\ advances w2 w' /\
              exists evs,
                trace w' = trace w2 ++
                  Imshow "Security Feed"
                    (inl (annotated (frame t)
                            (filterAndBound cs MIN_CONTOUR_AREA) (timestamp t)))
                  :: Imshow "Motion Detection" (inr (mask diff)) :: evs
        end
  end.
Proof.
  intros l g2. destruct (cv2.absdiff (gray1 v) g2) as [diff|] eqn:Ed.
  2:{ unfold loop_body. erewrite bind_ret by reflexivity. cbv zeta.
      unfold difference. fold g2. rewrite Ed.
      eexists _, _. split; [reflexivity|]. split; [reflexivity|].
      split; [reflexivity|]. exists []. cbn. now rewrite app_nil_r. }
  intros cs md mc w1. unfold loop_body.
  erewrite bind_ret by reflexivity. cbv zeta. unfold difference. fold g2.
  rewrite Ed.
  erewrite bind_ret by reflexivity.
  erewrite bind_ret by apply contour_loop_spec. cbv beta iota.
  erewrite bind_ret by apply annotate_spec.
  cbn [objects cap trace]. rewrite alter_alter, alter_fresh.
  fold cs. rewrite Nat.add_0_l, orb_false_l.
  pose proof (annotated_eq (frame t) cs (timestamp t)) as Ha. cbv zeta in Ha.
  rewrite Ha. clear Ha. fold md mc w1.
  destruct (notify cfg t (last_notification_time v) md mc w1) as [r w2] eqn:En.
  exists r, w2. split; [reflexivity|].
  destruct r as [[last' ntf]|e]; [|now erewrite bind_raise by exact En].
  erewrite bind_ret by exact En. cbv beta iota. fold l.
  pose proof (notify_same_store _ _ _ _ _ _ _ _ En) as Hs. unfold same_store in Hs.
  unfold with_frame at 1. unfold mbind at 1, M_bind at 1.
  assert (Hl : objects w2 !! l = Some (annotated (frame t)
             (filterAndBound cs MIN_CONTOUR_AREA) (timestamp t))).
  { rewrite Hs. subst w1 l. cbn [objects]. apply list_lookup_middle. reflexivity. }
  rewrite Hl. unfold emit at 1. cbv beta iota.
  erewrite bind_ret by reflexivity. cbv beta iota. cbn [objects cap trace].
  match goal with
  | |- context [(handle_key t l ≫= _) ?w3] =>
      destruct (handle_key_cases t l w3) as (w' & Ek);
      pose proof (handle_key_same_store _ _ _ _ _ Ek) as Hks;
      pose proof (handle_key_advances _ _ _ _ _ Ek) as Hka
  end.
  exists w'. erewrite bind_ret by exact Ek. split; [reflexivity|].
  unfold same_store in Hks. cbn [objects] in Hks. split; [congruence|]. split.
  - etransitivity; [|exact Hka]. split; [reflexivity|].
    eexists [_; _]. cbn [trace]. rewrite <- app_assoc. split; [reflexivity|].
    repeat constructor; discriminate.
  - destruct Hka as [_ (evs & Ht & _)]. exists evs. rewrite Ht. cbn [trace].
    now rewrite <- !app_assoc.
Qed.

Lemma absdiff_Some (a b : cv2.Gray) :
  cv2.shape a = cv2.shape b -> exists diff, cv2.absdiff a b = Some diff.
Proof. intros Hs. unfold cv2.absdiff. rewrite decide_True by done. eauto. Qed.

(** What a pass that returns has done. *)
Lemma loop_body_ret cfg v t w ctl v' p w' :
  loop_body cfg v t w = (Ret (ctl, v', p), w') ->
  exists diff,
    cv2.absdiff (gray1 v) (prepare (frame t)) = Some diff /\
    frame2 p = length (objects w) /\
    gray2 p = prepare (frame t) /\
    thresh p = mask diff /\
    contours p = find (mask diff) /\
    motion_detected p = existsb keeps (contours p) /\
    motion_count p = length (List.filter keeps (contours p)) /\
    ctl = (if Z.land (key t) 255 =? 113 then Break else Continue) /\
    gray1 v' = (if motion_detected p then gray1 v else gray2 p) /\
    frame_count v' = S (frame_count v) /\
    objects w' = objects w ++
      [annotated (frame t) (filterAndBound (contours p) MIN_CONTOUR_AREA)
                 (timestamp t)] /\
    advances w w' /\
    let gate := motion_detected p
                && Qltb NOTIFICATION_DELAY
                        (clock_gate t - last_notification_time v) in
    match notified p with
    | None => gate = false /\ last_notification_time v' = last_notification_time v
    | Some true =>
        gate = true /\ last_notification_time v' = clock_sent t /\
        truthy (SENDER_PASSWORD cfg) = true /\ raised (smtp t) = []
    | Some false =>
        gate = true /\ last_notification_time v' = last_notification_time v /\
        (truthy (SENDER_PASSWORD cfg) = false \/ raised (smtp t) <> [])
    end.
Proof.
  intros E. pose proof (loop_body_cases cfg v t w) as Hc. cbv zeta in Hc.
  destruct (cv2.absdiff (gray1 v) (prepare (frame t))) as [diff|].
  2:{ destruct Hc as (e & w2 & E2 & _). congruence. }
  destruct Hc as (r & w2 & En & Hr). exists diff. split; [reflexivity|].
  destruct (notify_cases cfg t (last_notification_time v)
              (existsb keeps (find (mask diff)))
              (length (List.filter keeps (find (mask diff))))
              {| objects := objects w ++
                   [annotated (frame t)
                      (filterAndBound (find (mask diff)) MIN_CONTOUR_AREA)
                      (timestamp t)];
                 cap := cap w; trace := trace w |})
    as (r' & w2' & En' & Hn).
  rewrite En in En'. injection En' as <- <-.
  destruct r as [[last' ntf]|e]; [|congruence].
  destruct Hr as (w3 & E3 & Ho & Ha & _). rewrite E in E3.
  injection E3 as -> -> -> ->. cbn [frame2 gray2 thresh contours motion_detected
    motion_count notified gray1 last_notification_time frame_count].
  repeat (split; [reflexivity|]). split; [exact Ho|]. split.
  - etransitivity; [|exact Ha].
    pose proof (notify_advances _ _ _ _ _ _ _ _ En) as [Hcap Htr].
    split; [exact Hcap | exact Htr].
  - cbv zeta in Hn. destruct ntf as [[|]|]; tauto.
Qed.

(** A pass raises only for frames of another size, or for what escapes the
    notifier. *)
Lemma loop_body_raise cfg v t w e w' :
  loop_body cfg v t w = (Raise e, w') ->
  cv2.shape (gray1 v) <> cv2.shape (prepare (frame t)) \/
  (In e (raised (smtp t)) /\ isinstance e Exception = false).
Proof.
  intros E. pose proof (loop_body_cases cfg v t w) as Hc. cbv zeta in Hc.
  destruct (cv2.absdiff (gray1 v) (prepare (frame t))) as [diff|] eqn:Ed.
  2:{ left. intros Hs. destruct (absdiff_Some _ _ Hs). congruence. }
  right. destruct Hc as (r & w2 & En & Hr).
  match type of En with
  | notify ?c ?t ?l ?md ?mc ?w1 = _ =>
      destruct (notify_cases c t l md mc w1) as (r' & w2' & En' & Hn)
  end.
  rewrite En in En'. injection En' as <- <-.
  destruct r as [[last' ntf]|e0].
  - destruct Hr as (w3 & E3 & _). congruence.
  - rewrite E in Hr. injection Hr as -> ->. cbv zeta in Hn. tauto.
Qed.

Lemma loop_body_total cfg v t w :
  cv2.shape (gray1 v) = cv2.shape (prepare (frame t)) ->
  Forall (fun e => isinstance e Exception = true) (raised (smtp t)) ->
  exists ctl v' p w', loop_body cfg v t w = (Ret (ctl, v', p), w').
Proof.
  intros Hs Hx. destruct (loop_body cfg v t w) as [[[[ctl v'] p]|e] w'] eqn:E.
  - eauto 10.
  - apply loop_body_raise in E as [Hne | [Hin Hi]]; [done|].
    rewrite List.Forall_forall in Hx. specialize (Hx e Hin). congruence.
Qed.

(** *** Identical frames *)

(** C4: when the frame read is the one the reference was prepared from, the
    two prepared images are equal, [cv2.absdiff] gives a map of zeros, no
    sample of the mask is set, no contour is found, and the pass ends with
    [motion_detected] false. *)
Theorem C4_identical_frames cfg t (last : Q) (count : nat) w :
  let v := {| gray1 := prepare (frame t); last_notification_time := last;
              frame_count := count |} in
  exists diff ctl v' p w',
    cv2.absdiff (gray1 v) (prepare (frame t)) = Some diff /\
    all_zero diff /\ all_zero (mask diff) /\
    loop_body cfg v t w = (Ret (ctl, v', p), w') /\
    thresh p = mask diff /\ contours p = [] /\
    motion_detected p = false /\ motion_count p = 0%nat.
Proof.
  intros v.
  assert (Hd : cv2.absdiff (gray1 v) (prepare (frame t))
               = Some (map (map (fun _ => 0)) (prepare (frame t))))
    by apply absdiff_diag.
  assert (Hz : all_zero (map (map (fun _ : Z => 0)) (prepare (frame t))))
    by now apply all_zero_map.
  pose proof (find_all_zero _ (mask_all_zero _ Hz)) as Hf.
  destruct (loop_body cfg v t w) as [[[[ctl v'] p]|e] w'] eqn:E.
  - destruct (loop_body_ret _ _ _ _ _ _ _ _ E)
      as (diff & Hd' & _ & _ & Ht & Hc & Hm & Hn & _).
    rewrite Hd in Hd'. injection Hd' as <-. rewrite Hf in Hc.
    rewrite Hc in Hm, Hn. eexists _, ctl, v', p, w'.
    split; [exact Hd|]. split; [exact Hz|]. split; [now apply mask_all_zero|].
    done.
  - exfalso. pose proof (loop_body_cases cfg v t w) as Hc. cbv zeta in Hc.
    rewrite Hd, Hf in Hc. destruct Hc as (r & w2 & En & Hr).
    match type of En with
    | notify ?c ?t ?l ?md ?mc ?w1 = _ =>
        destruct (notify_cases c t l md mc w1) as (r' & w2' & En' & Hn)
    end.
    rewrite En in En'. injection En' as <- <-. cbv zeta in Hn.
    destruct r as [[last' ntf]|e0].
    + destruct Hr as (w3 & E3 & _). congruence.
    + simpl in Hn. destruct Hn as [Hn _]. discriminate.
Qed.

(** *** The gate of the notifier *)

Lemma gate_true md (now last : Q) :
  md && Qltb NOTIFICATION_DELAY (now - last) = true <->
  md = true /\ (NOTIFICATION_DELAY < now - last)%Q.
Proof. now rewrite andb_true_iff, Qltb_lt. Qed.

Lemma gate_false md (now last : Q) :
  md && Qltb NOTIFICATION_DELAY (now - last) = false <->
  ~ (md = true /\ (NOTIFICATION_DELAY < now - last)%Q).
Proof. now rewrite <- gate_true, not_true_iff_false. Qed.

Lemma notified_gate cfg v t w ctl v' p w' :
  loop_body cfg v t w = (Ret (ctl, v', p), w') ->
  notified p <> None <->
  motion_detected p = true /\
  (NOTIFICATION_DELAY < clock_gate t - last_notification_time v)%Q.
Proof.
  intros E. destruct (loop_body_ret _ _ _ _ _ _ _ _ E) as (_ & _ & _ & _ & _ & _
    & _ & _ & _ & _ & _ & _ & _ & Hn). cbv zeta in Hn. rewrite <- gate_true.
  destruct (notified p) as [[|]|]; destruct Hn as [-> _]; split; congruence.
Qed.

Lemma last_notification_time_after cfg v t w ctl v' p w' :
  loop_body cfg v t w = (Ret (ctl, v', p), w') ->
  last_notification_time v' =
    (if decide (notified p = Some true) then clock_sent t
     else last_notification_time v).
Proof.
  intros E. destruct (loop_body_ret _ _ _ _ _ _ _ _ E) as (_ & _ & _ & _ & _ & _
    & _ & _ & _ & _ & _ & _ & _ & Hn). cbv zeta in Hn.
  destruct (notified p) as [[|]|]; simpl; tauto.
Qed.


(** *** Failures of the notifier *)


(** *** Annotation *)

Lemma loop_body_shows cfg v t w ctl v' p w' :
  loop_body cfg v t w = (Ret (ctl, v', p), w') ->
  In (Imshow "Security Feed"
        (inl (annotated (frame t)
                (filterAndBound (contours p) MIN_CONTOUR_AREA) (timestamp t))))
     (trace w') /\
  In (Imshow "Motion Detection" (inr (thresh p))) (trace w').
Proof.
  intros E. pose proof (loop_body_cases cfg v t w) as Hc. cbv zeta in Hc.
  destruct (cv2.absdiff (gray1 v) (prepare (frame t))) as [diff|].
  2:{ destruct Hc as (e & w2 & E2 & _). congruence. }
  destruct Hc as (r & w2 & En & Hr).
  destruct r as [[last' ntf]|e]; [|congruence].
  destruct Hr as (w3 & E3 & _ & _ & evs & Ht). rewrite E in E3.
  injection E3 as -> -> -> ->. cbn [contours thresh]. rewrite Ht.
  split; apply in_or_app; right; simpl; auto.
Qed.

(** C9, as the code has it.  A pass draws in place, on the array
    [cap.read()] returned: that array is the only one the pass adds to the
    store, none of the older ones changes, and at the end it holds the frame
    with a box around every surviving contour, the timestamp and - when
    there is motion - the status line; it is what the ["Security Feed"]
    window is given.  The prepared image [gray2] was computed from the frame
    before anything was drawn. *)
Theorem C9_annotation_in_place cfg v t w ctl v' p w' :
  loop_body cfg v t w = (Ret (ctl, v', p), w') ->
  let regions := filterAndBound (contours p) MIN_CONTOUR_AREA in
  let shown := annotated (frame t) regions (timestamp t) in
  frame2 p = length (objects w) /\
  objects w' = objects w ++ [shown] /\
  objects w' !! frame2 p = Some shown /\
  In (Imshow "Security Feed" (inl shown)) (trace w') /\
  gray2 p = prepare (frame t) /\
  motion_count p = length regions /\
  (motion_detected p = true <-> regions <> []).
Proof.
  intros E regions shown.
  destruct (loop_body_ret _ _ _ _ _ _ _ _ E) as (diff & _ & Hl & Hg & _ & _
    & Hm & Hn & _ & _ & _ & Ho & _).
  destruct (loop_body_shows _ _ _ _ _ _ _ _ E) as [Hshow _].
  split; [exact Hl|]. split; [exact Ho|]. split.
  { rewrite Ho, Hl. now apply list_lookup_middle. }
  split; [exact Hshow|]. split; [exact Hg|].
  subst regions. unfold filterAndBound. fold keeps. rewrite length_map.
  split; [exact Hn|]. rewrite Hm, existsb_filter_length.
  destruct (List.filter keeps (contours p)); simpl; split; intros; done.
Qed.

(** *** Runs of the loop *)

Lemma main_loop_nil cfg v w vN ps wN :
  main_loop cfg v [] w = (Ret (vN, ps), wN) -> vN = v /\ ps = [].
Proof. intros [= <- <- _]. done. Qed.

Lemma main_loop_cons cfg v t rest w vN ps wN :
  main_loop cfg v (t :: rest) w = (Ret (vN, ps), wN) ->
  exists ctl v1 p1 w1,
    loop_body cfg v t w = (Ret (ctl, v1, p1), w1) /\
    ((ctl = Break /\ ps = [p1] /\ vN = v1 /\ wN = w1) \/
     (ctl = Continue /\
      exists ps', main_loop cfg v1 rest w1 = (Ret (vN, ps'), wN) /\
                  ps = p1 :: ps')).
Proof.
  cbn [main_loop]. intros E.
  apply bind_ret_inv in E as ([[ctl v1] p1] & w1 & E1 & E).
  exists ctl, v1, p1, w1. split; [exact E1|]. destruct ctl.
  - right. split; [done|].
    apply bind_ret_inv in E as ([v2 ps'] & w2 & E2 & E).
    injection E as <- <- <-. eauto.
  - left. injection E as <- <- <-. done.
Qed.

(** The reference after a run whose last pass saw no motion. *)
Lemma main_loop_reference cfg stream : forall v w vN ps wN q,
  main_loop cfg v stream w = (Ret (vN, ps), wN) ->
  motion_detected (List.last ps q) = false -> ps <> [] ->
  exists tN, stream !! (length ps - 1)%nat = Some tN /\
             gray1 vN = prepare (frame tN).
Proof.
  induction stream as [|t rest IH]; intros v w vN ps wN q E Hm Hne.
  - apply main_loop_nil in E as [_ ->]. done.
  - apply main_loop_cons in E as (ctl & v1 & p1 & w1 & E1 & Hk).
    destruct (loop_body_ret _ _ _ _ _ _ _ _ E1) as (_ & _ & _ & Hg & _ & _
      & _ & _ & _ & Hr & _).
    destruct Hk as [(_ & -> & -> & _) | (_ & ps' & E2 & ->)].
    + exists t. split; [reflexivity|]. simpl in Hm. now rewrite Hr, Hm, Hg.
    + destruct ps' as [|p2 ps'].
      * destruct rest as [|t2 rest].
        -- apply main_loop_nil in E2 as [-> _].
           exists t. split; [reflexivity|]. simpl in Hm. now rewrite Hr, Hm, Hg.
        -- apply main_loop_cons in E2 as (? & ? & ? & ? & _ & [(_ & ? & _)|(_ & ? & _ & ?)]);
             discriminate.
      * destruct (IH v1 w1 vN (p2 :: ps') wN q E2) as (tN & Ht & Hg'); try done.
        exists tN. split; [|exact Hg']. simpl in Ht |- *.
        now rewrite Nat.sub_0_r in *.
Qed.

(** C3: a pass that returns leaves as reference the prepared form of the
    frame it read when it saw no motion, and the reference it found when it
    saw motion; so after a run of passes none of which saw motion, the
    reference is the prepared form of the last frame read. *)
Theorem C3_reference_update cfg v t w ctl v' p w' stream vN ps wN :
  loop_body cfg v t w = (Ret (ctl, v', p), w') ->
  main_loop cfg v stream w = (Ret (vN, ps), wN) ->
  ps <> [] -> Forall (fun q => motion_detected q = false) ps ->
  gray2 p = GaussianBlur (cvtColor (frame t) COLOR_BGR2GRAY) (21, 21) 0 /\
  (motion_detected p = false -> gray1 v' = gray2 p) /\
  (motion_detected p = true -> gray1 v' = gray1 v) /\
  exists tN, stream !! (length ps - 1)%nat = Some tN /\
             gray1 vN = prepare (frame tN).
Proof.
  intros E1 EN Hne Hall.
  destruct (loop_body_ret _ _ _ _ _ _ _ _ E1) as (_ & _ & _ & Hg & _ & _
    & _ & _ & _ & Hr & _).
  split; [exact Hg|]. split; [|split].
  - intros Hm. now rewrite Hr, Hm.
  - intros Hm. now rewrite Hr, Hm.
  - destruct ps as [|p0 ps0]; [done|].
    apply (main_loop_reference cfg stream v w vN (p0 :: ps0) wN p0 EN).
    + rewrite List.Forall_forall in Hall. apply Hall.
      destruct (exists_last Hne) as (l' & a & ->). rewrite last_last.
      apply in_or_app. right. now left.
    + done.
Qed.

Lemma loop_body_advances cfg v t : respects advances (loop_body cfg v t).
Proof.
  intros w r w' E. pose proof (loop_body_cases cfg v t w) as Hc. cbv zeta in Hc.
  destruct (cv2.absdiff (gray1 v) (prepare (frame t))) as [diff|].
  - destruct Hc as (r2 & w2 & En & Hr).
    pose proof (notify_advances _ _ _ _ _ _ _ _ En) as [Hcap Htr].
    assert (Hw2 : advances w w2) by (split; [exact Hcap | exact Htr]).
    destruct r2 as [[last' ntf]|e].
    + destruct Hr as (w3 & E3 & _ & Ha & _). rewrite E in E3.
      injection E3 as _ <-. now transitivity w2.
    + rewrite E in Hr. now injection Hr as _ <-.
  - destruct Hc as (e & w2 & E2 & _ & Ha). rewrite E in E2. now injection E2 as _ <-.
Qed.

Lemma main_loop_advances cfg stream : forall v, respects advances (main_loop cfg v stream).
Proof.
  induction stream as [|t rest IH]; intros v; cbn [main_loop].
  - respects_tac.
  - apply (respects_bind advances); [apply loop_body_advances|].
    intros [[[] v1] p1]; respects_tac. apply IH.
Qed.


Lemma isOpened_spec w :
  isOpened w = (Ret (match cap w with Some true => true | _ => false end), w).
Proof. unfold isOpened. now destruct (cap w) as [[|]|]. Qed.

(** How the start-up ends. *)
Lemma startup_cases env w :
  match camera_opens env, first_frame env with
  | false, _ =>
      exists e line,
        startup env w =
        (Raise e, {| objects := objects w; cap := Some false;
                     trace := trace w ++ [Stdout line] |}) /\
        exc_class e = SystemExit
  | true, None =>
      exists e l1 l2,
        startup env w =
        (Raise e, {| objects := objects w; cap := Some false;
                     trace := trace w ++ [Stdout l1; Stdout l2; CapRelease] |}) /\
        exc_class e = SystemExit
  | true, Some f =>
      exists lines,
        startup env w =
        (Ret {| gray1 := prepare f; last_notification_time := 0;
                frame_count := 0 |},
         {| objects := objects w ++ [f]; cap := Some true;
            trace := trace w ++ map Stdout lines |})
  end.
Proof.
  unfold startup, VideoCapture. erewrite bind_ret by reflexivity.
  erewrite bind_ret by apply isOpened_spec. cbn [cap].
  destruct (camera_opens env); cbn [negb].
  - destruct (first_frame env) as [f|].
    + eexists [_; _; _; _; _; _; _; _].
      unfold mbind, M_bind, print, emit, alloc, mret, M_ret.
      cbn [objects cap trace map]. rewrite <- !app_assoc. reflexivity.
    + eexists _, _, _.
      unfold mbind, M_bind, print, emit, release, exit, raise.
      cbn [objects cap trace]. rewrite <- !app_assoc. split; reflexivity.
  - eexists _, _. unfold mbind, M_bind, print, emit, exit, raise.
    cbn [objects cap trace]. split; reflexivity.
Qed.


(** *** Leaving the program *)

Lemma finally_block_spec w :
  finally_block w =
  (Ret tt,
   {| objects := objects w;
      cap := match cap w with Some true => Some false | c => c end;
      trace := trace w
               ++ match cap w with
                  | Some true => [CapRelease; Stdout "✓ Camera released"]
                  | _ => []
                  end
               ++ teardown |}).
Proof.
  unfold finally_block. erewrite bind_ret by apply isOpened_spec.
  destruct (cap w) as [[|]|] eqn:Ec;
    unfold mbind, M_bind, release, print, emit, mret, M_ret, teardown;
    cbn [objects cap trace app]; rewrite <- ?app_assoc; cbn [app];
    rewrite ?Ec; reflexivity.
Qed.

Lemma Forall_benign_Stdout lines : Forall benign (map Stdout lines).
Proof.
  induction lines; simpl; constructor; [split; discriminate | done].
Qed.

(** The world the [try] block leaves to the [finally] block. *)
Lemma try_block_world env r w1 :
  try_block env world0 = (r, w1) ->
  if camera_opens env then
    (cap w1 = Some true /\ Forall benign (trace w1)) \/
    (cap w1 = Some false /\
     exists pre, trace w1 = pre ++ [CapRelease] /\ Forall benign pre)
  else cap w1 = Some false /\ Forall benign (trace w1).
Proof.
  unfold try_block. pose proof (startup_cases env world0) as Hc.
  destruct (camera_opens env); [destruct (first_frame env) as [f|]|].
  - destruct Hc as (lines & Hc). erewrite bind_ret by exact Hc.
    intros E. left.
    apply (respects_bind advances (main_loop _ _ _) (fun _ => mret tt)) in E
      as [Hcap (evs & Ht & Hb)].
    + split; [exact Hcap|]. rewrite Ht. cbn [trace app].
      apply Forall_app. split; [apply Forall_benign_Stdout | exact Hb].
    + apply main_loop_advances.
    + intros ?. apply (respects_ret advances).
  - destruct Hc as (e & l1 & l2 & Hc & _). erewrite bind_raise by exact Hc.
    intros [= _ <-]. right. split; [reflexivity|].
    exists [Stdout l1; Stdout l2]. split; [reflexivity|].
    repeat constructor; discriminate.
  - destruct Hc as (e & line & Hc & _). erewrite bind_raise by exact Hc.
    intros [= _ <-]. split; [reflexivity|]. repeat constructor; discriminate.
Qed.

(** C8: however the program ends - [q], the end of the stream, a failure at
    start-up, an exception from inside the loop - the world it leaves has
    the camera handle closed; when the camera had opened, [cap.release()]
    was called exactly once; and the last thing done, before the two closing
    lines are printed, is [cv2.destroyAllWindows()], called once. *)
Theorem C8_cleanup_on_every_exit env :
  let w := snd (main env) in
  cap w = Some false /\
  if camera_opens env then
    exists pre mid,
      trace w = pre ++ CapRelease :: mid ++ teardown /\
      Forall benign pre /\ Forall benign mid
  else
    exists pre, trace w = pre ++ teardown /\ Forall benign pre.
Proof.
  unfold main, try_finally.
  destruct (try_block env world0) as [r w1] eqn:E.
  pose proof (try_block_world env r w1 E) as Hw.
  rewrite finally_block_spec. cbn [snd cap trace].
  destruct (camera_opens env).
  - destruct Hw as [[Hcap Hb] | [Hcap (pre & Ht & Hb)]]; rewrite Hcap.
    + split; [reflexivity|]. exists (trace w1), [Stdout "✓ Camera released"].
      split; [reflexivity|]. split; [exact Hb|].
      repeat constructor; discriminate.
    + split; [reflexivity|]. exists pre, []. rewrite Ht, <- app_assoc.
      split; [reflexivity|]. split; [exact Hb | constructor].
  - destruct Hw as [Hcap Hb]. rewrite Hcap. split; [reflexivity|].
    exists (trace w1). split; [reflexivity | exact Hb].
Qed.

(** *** What the area filter measures *)

(** Whatever the camera and the blur: when the samples of the difference
    above the sensitivity are exactly those of the 20 x 20 block of
    [diff_block], the pass reports one moving object. *)
Lemma block_of_400_is_reported cfg v t w ctl v' p w' diff :
  loop_body cfg v t w = (Ret (ctl, v', p), w') ->
  cv2.absdiff (gray1 v) (gray2 p) = Some diff ->
  snd (cv2.threshold diff MOTION_THRESHOLD 255 cv2.THRESH_BINARY)
  = snd (cv2.threshold diff_block MOTION_THRESHOLD 255 cv2.THRESH_BINARY) ->
  motion_detected p = true /\ motion_count p = 1%nat.
Proof.
  intros E Hd Ht.
  destruct (loop_body_ret _ _ _ _ _ _ _ _ E) as (diff' & Hd' & _ & Hg & _ & Hc
    & Hm & Hn & _).
  rewrite Hg in Hd. rewrite Hd in Hd'. injection Hd' as <-.
  assert (Hmask : mask diff = mask diff_block) by (unfold mask; now rewrite Ht).
  rewrite Hmask in Hc. rewrite Hm, Hn, Hc. split; vm_compute; reflexivity.
Qed.


(** *** Further properties of the loop *)

Lemma absdiff_shape (a b d : cv2.Gray) :
  cv2.absdiff a b = Some d -> cv2.shape a = cv2.shape b.
Proof. unfold cv2.absdiff. now destruct (decide (cv2.shape a = cv2.shape b)). Qed.

Lemma loop_body_keeps_shape cfg v t w ctl v' p w' :
  loop_body cfg v t w = (Ret (ctl, v', p), w') ->
  cv2.shape (gray1 v') = cv2.shape (gray1 v).
Proof.
  intros E. destruct (loop_body_ret _ _ _ _ _ _ _ _ E) as (diff & Hd & _ & Hg & _
    & _ & _ & _ & _ & Hr & _).
  rewrite Hr. destruct (motion_detected p); [done|].
  rewrite Hg. symmetry. exact (absdiff_shape _ _ _ Hd).
Qed.

(** X1: under sustained motion the reference is frozen: after a run of passes
    every one of which saw motion, [gray1] is what it was before the run. *)
Theorem reference_frozen_under_motion cfg stream : forall v w vN ps wN,
  main_loop cfg v stream w = (Ret (vN, ps), wN) ->
  Forall (fun q => motion_detected q = true) ps ->
  gray1 vN = gray1 v.
Proof.
  induction stream as [|t rest IH]; intros v w vN ps wN E Hall.
  - now apply main_loop_nil in E as [-> _].
  - apply main_loop_cons in E as (ctl & v1 & p1 & w1 & E1 & Hk).
    destruct (loop_body_ret _ _ _ _ _ _ _ _ E1) as (_ & _ & _ & _ & _ & _
      & _ & _ & _ & Hr & _).
    destruct Hk as [(_ & -> & -> & _) | (_ & ps' & E2 & ->)];
      apply Forall_cons in Hall as [Hm Hall]; rewrite Hm in Hr.
    + exact Hr.
    + rewrite (IH _ _ _ _ _ E2 Hall). exact Hr.
Qed.


Lemma threshold_below (diff : cv2.Gray) :
  Forall (Forall (fun d => d <= MOTION_THRESHOLD)) diff ->
  all_zero (snd (cv2.threshold diff MOTION_THRESHOLD 255 cv2.THRESH_BINARY)).
Proof.
  intros Hs. unfold cv2.threshold, all_zero. simpl.
  apply Forall_fmap. eapply Forall_impl; [exact Hs|]. intros row Hrow. simpl.
  apply Forall_fmap. eapply Forall_impl; [exact Hrow|]. intros d Hd. simpl.
  unfold MOTION_THRESHOLD in *. destruct (Z.ltb_spec 25 d); [lia | reflexivity].
Qed.

(** X3: a difference that nowhere exceeds the sensitivity is no motion: the
    pass returns without calling the notifier, takes the frame as the new
    reference and keeps the stored time. *)
Theorem below_sensitivity_is_no_motion cfg v t w diff :
  cv2.absdiff (gray1 v) (prepare (frame t)) = Some diff ->
  Forall (Forall (fun d => d <= MOTION_THRESHOLD)) diff ->
  exists ctl v' p w',
    loop_body cfg v t w = (Ret (ctl, v', p), w') /\
    all_zero (thresh p) /\ contours p = [] /\
    motion_detected p = false /\ motion_count p = 0%nat /\
    notified p = None /\
    gray1 v' = prepare (frame t) /\
    last_notification_time v' = last_notification_time v.
Proof.
  intros Hd Hs.
  assert (Hz : all_zero (mask diff))
    by (unfold mask; apply dilate_all_zero, threshold_below, Hs).
  pose proof (find_all_zero _ Hz) as Hf.
  assert (Hret : exists ctl v' p w', loop_body cfg v t w = (Ret (ctl, v', p), w')).
  { destruct (loop_body cfg v t w) as [[[[ctl v'] p]|e] w'] eqn:E; [eauto 10|].
    exfalso. pose proof (loop_body_cases cfg v t w) as Hc. cbv zeta in Hc.
    rewrite Hd, Hf in Hc. destruct Hc as (r & w2 & En & Hr).
    match type of En with
    | notify ?c ?t ?l ?md ?mc ?w1 = _ =>
        destruct (notify_cases c t l md mc w1) as (r' & w2' & En' & Hn)
    end.
    rewrite En in En'. injection En' as <- <-. cbv zeta in Hn.
    destruct r as [[last' ntf]|e0].
    - destruct Hr as (w3 & E3 & _). congruence.
    - simpl in Hn. destruct Hn as [Hn _]. discriminate. }
  destruct Hret as (ctl & v' & p & w' & E). exists ctl, v', p, w'.
  split; [exact E|].
  destruct (loop_body_ret _ _ _ _ _ _ _ _ E) as (diff' & Hd' & _ & Hg & Ht & Hc
    & Hm & Hn & _ & Hr & _ & _ & _ & Hgate).
  rewrite Hd in Hd'. injection Hd' as <-. rewrite Hf in Hc.
  rewrite Hc in Hm, Hn. simpl in Hm, Hn. cbv zeta in Hgate. rewrite Hm in Hgate, Hr.
  rewrite Ht. repeat (split; [done|]).
  destruct (notified p) as [[|]|]; simpl in Hgate.
  - destruct Hgate as [Hg' _]. discriminate.
  - destruct Hgate as [Hg' _]. discriminate.
  - destruct Hgate as [_ Hl]. split; [done|]. split; [now rewrite Hr, Hg | exact Hl].
Qed.

(** Along a run the stored time does not go back, and every pass that sent
    an alert tried the gate more than the delay after the stored time the
    run began with and after the time any earlier alert stored. *)
Lemma main_loop_spacing cfg stream : forall v w vN ps wN,
  main_loop cfg v stream w = (Ret (vN, ps), wN) ->
  Forall (fun t => (clock_gate t <= clock_sent t)%Q) stream ->
  (last_notification_time v <= last_notification_time vN)%Q /\
  (forall j pj tj, ps !! j = Some pj -> stream !! j = Some tj ->
     notified pj = Some true ->
     (NOTIFICATION_DELAY < clock_gate tj - last_notification_time v)%Q) /\
  (forall i j pi pj ti tj, (i < j)%nat ->
     ps !! i = Some pi -> ps !! j = Some pj ->
     stream !! i = Some ti -> stream !! j = Some tj ->
     notified pi = Some true -> notified pj = Some true ->
     (NOTIFICATION_DELAY < clock_gate tj - clock_sent ti)%Q).
Proof.
  induction stream as [|t rest IH]; intros v w vN ps wN E Hmono.
  - apply main_loop_nil in E as [-> ->]. split; [apply Qle_refl|]. split; intros; done.
  - apply main_loop_cons in E as (ctl & v1 & p1 & w1 & E1 & Hk).
    apply Forall_cons in Hmono as [Ht Hmono].
    pose proof (notified_gate _ _ _ _ _ _ _ _ E1) as G1.
    pose proof (last_notification_time_after _ _ _ _ _ _ _ _ E1) as L1.
    assert (Hstep : (last_notification_time v <= last_notification_time v1)%Q).
    { rewrite L1. destruct (decide (notified p1 = Some true)) as [Hn|Hn]; [|apply Qle_refl].
      assert (Hg : notified p1 <> None) by congruence.
      apply G1 in Hg as [_ Hg]. revert Hg Ht. unfold NOTIFICATION_DELAY. intros. lra. }
    assert (Hhead : notified p1 = Some true ->
              (NOTIFICATION_DELAY < clock_gate t - last_notification_time v)%Q).
    { intros Hn. assert (Hg : notified p1 <> None) by congruence.
      now apply G1 in Hg as [_ Hg]. }
    destruct Hk as [(_ & -> & -> & _) | (_ & ps' & E2 & ->)].
    + split; [exact Hstep|]. split.
      * intros [|j] pj tj Hp Hs Hn; [|done].
        injection Hp as <-. injection Hs as <-. now apply Hhead.
      * intros i [|[|j]] pi pj ti tj Hij Hpi Hpj; try lia; done.
    + destruct (IH _ _ _ _ _ E2 Hmono) as (Hle & Hone & Htwo).
      split; [eapply Qle_trans; eassumption|]. split.
      * intros [|j] pj tj Hp Hs Hn.
        -- injection Hp as <-. injection Hs as <-. now apply Hhead.
        -- specialize (Hone j pj tj Hp Hs Hn).
           revert Hone Hstep. unfold NOTIFICATION_DELAY. intros. lra.
      * intros [|i] [|j] pi pj ti tj Hij Hpi Hpj Hsi Hsj Hni Hnj; try lia.
        -- injection Hpi as <-. injection Hsi as <-.
           specialize (Hone j pj tj Hpj Hsj Hnj).
           rewrite L1, decide_True in Hone by done. exact Hone.
        -- apply (Htwo i j pi pj ti tj); try done. lia.
Qed.

(** X4: successful alerts are spaced.  In a run during which the clock
    never goes back across a send, any two passes that sent an alert are
    such that the later one tried the gate more than [NOTIFICATION_DELAY]
    after the time the earlier one stored. *)
Theorem successful_alerts_are_spaced cfg stream v w vN ps wN i j pi pj ti tj :
  main_loop cfg v stream w = (Ret (vN, ps), wN) ->
  Forall (fun t => (clock_gate t <= clock_sent t)%Q) stream ->
  (i < j)%nat ->
  ps !! i = Some pi -> ps !! j = Some pj ->
  stream !! i = Some ti -> stream !! j = Some tj ->
  notified pi = Some true -> notified pj = Some true ->
  (NOTIFICATION_DELAY < clock_gate tj - clock_sent ti)%Q.
Proof.
  intros E Hmono. destruct (main_loop_spacing _ _ _ _ _ _ _ E Hmono) as (_ & _ & Htwo).
  apply Htwo.
Qed.

(** *** Runs that end well *)

(** Neither a failing relay nor anything else in the loop stops a run whose
    frames all have the size of the reference: the loop returns. *)
Lemma main_loop_total cfg stream : forall v w,
  Forall (fun t => cv2.shape (prepare (frame t)) = cv2.shape (gray1 v)) stream ->
  Forall (fun t => Forall (fun e => isinstance e Exception = true)
                          (raised (smtp t))) stream ->
  exists vN ps wN, main_loop cfg v stream w = (Ret (vN, ps), wN).
Proof.
  induction stream as [|t rest IH]; intros v w Hs Hx.
  - eexists _, _, _. reflexivity.
  - apply Forall_cons in Hs as [Hs1 Hs]. apply Forall_cons in Hx as [Hx1 Hx].
    destruct (loop_body_total cfg v t w (eq_sym Hs1) Hx1) as (ctl & v1 & p1 & w1 & E).
    cbn [main_loop]. erewrite bind_ret by exact E. destruct ctl.
    + destruct (IH v1 w1) as (vN & ps & wN & EN); [|exact Hx|].
      * rewrite (loop_body_keeps_shape _ _ _ _ _ _ _ _ E). exact Hs.
      * erewrite bind_ret by exact EN. eexists _, _, _. reflexivity.
    + eexists _, _, _. reflexivity.
Qed.

(** X5: when the camera opens, delivers a first frame and then frames of
    that size only, and the relay raises nothing but [Exception]s, the
    program ends normally - by [q] or at the end of the stream. *)
Theorem program_ends_normally env f :
  camera_opens env = true ->
  first_frame env = Some f ->
  Forall (fun t => cv2.shape (prepare (frame t)) = cv2.shape (prepare f))
         (stream env) ->
  Forall (fun t => Forall (fun e => isinstance e Exception = true)
                          (raised (smtp t))) (stream env) ->
  fst (main env) = Ret tt.
Proof.
  intros Ho Hf Hs Hx. unfold main, try_finally, try_block.
  pose proof (startup_cases env world0) as Hc. rewrite Ho, Hf in Hc.
  destruct Hc as (lines & Hc). erewrite bind_ret by exact Hc.
  match goal with
  | |- context [(main_loop ?c ?v ?s ≫= _) ?w] =>
      destruct (main_loop_total c s v w Hs Hx) as (vN & ps & wN & EN)
  end.
  erewrite bind_ret by exact EN. unfold mret, M_ret.
  now rewrite finally_block_spec.
Qed.

(** X6: the passes of a run that returns are those over the frames of the
    stream up to and including the first at which [q] was pressed - all of
    them if it never was - and [frame_count] has grown by their number. *)
Theorem passes_until_quit cfg stream : forall v w vN ps wN,
  main_loop cfg v stream w = (Ret (vN, ps), wN) ->
  map gray2 ps = map (fun t => prepare (frame t)) (until_quit stream) /\
  length ps = length (until_quit stream) /\
  frame_count vN = (frame_count v + length ps)%nat.
Proof.
  induction stream as [|t rest IH]; intros v w vN ps wN E.
  - apply main_loop_nil in E as [-> ->]. simpl. now rewrite Nat.add_0_r.
  - apply main_loop_cons in E as (ctl & v1 & p1 & w1 & E1 & Hk).
    destruct (loop_body_ret _ _ _ _ _ _ _ _ E1) as (_ & _ & _ & Hg & _ & _
      & _ & _ & Hctl & _ & Hfc & _).
    cbn [until_quit]. unfold is_quit.
    destruct Hk as [(-> & -> & -> & _) | (-> & ps' & E2 & ->)].
    + destruct (Z.land (key t) 255 =? 113); [|discriminate]. simpl.
      rewrite Hg, Hfc. split; [done|]. split; [done | lia].
    + destruct (Z.land (key t) 255 =? 113); [discriminate|].
      destruct (IH _ _ _ _ _ E2) as (Hm & Hl & Hc). simpl.
      rewrite Hg, Hm, Hl, Hc, Hfc, Hl. split; [done|]. split; [done | lia].
Qed.

(** *** Keys *)

Lemma land_255 (k : Z) : Z.land k 255 = k mod 256.
Proof. change 255 with (Z.ones 8). now rewrite Z.land_ones by lia. Qed.

Lemma handle_key_spec t l w f :
  objects w !! l = Some f ->
  handle_key t l w =
  (Ret (if Z.land (key t) 255 =? 113 then Break else Continue),
   {| objects := objects w; cap := cap w;
      trace := trace w ++
        (if Z.land (key t) 255 =? 113 then
           [Stdout (newline ++ rule); Stdout "Exiting motion detection...";
            Stdout rule]
         else if Z.land (key t) 255 =? 115 then
           [Imwrite ("snapshot_" ++ snapshot_stamp t ++ ".jpg") f;
            Stdout ("✓ Snapshot saved: " ++ "snapshot_" ++ snapshot_stamp t ++ ".jpg")]
         else []) |}).
Proof.
  intros Hl. unfold handle_key. cbv zeta.
  destruct (Z.land (key t) 255 =? 113).
  - unfold mbind, M_bind, print, emit, mret, M_ret. cbn [objects cap trace].
    now rewrite <- !app_assoc.
  - destruct (Z.land (key t) 255 =? 115).
    + unfold with_frame, mbind, M_bind, print, emit, mret, M_ret. rewrite Hl.
      cbn [objects cap trace]. now rewrite <- !app_assoc.
    + unfold mret, M_ret. rewrite app_nil_r. now destruct w.
Qed.

(** What a pass does once the notifier has returned. *)
Lemma loop_body_after_notify cfg v t w diff last' ntf w2 :
  let l := length (objects w) in
  let g2 := prepare (frame t) in
  let cs := find (mask diff) in
  let md := existsb keeps cs in
  let mc := length (List.filter keeps cs) in
  let shown := annotated (frame t) (filterAndBound cs MIN_CONTOUR_AREA)
                         (timestamp t) in
  let w1 := {| objects := objects w ++ [shown]; cap := cap w; trace := trace w |} in
  cv2.absdiff (gray1 v) g2 = Some diff ->
  notify cfg t (last_notification_time v) md mc w1 = (Ret (last', ntf), w2) ->
  loop_body cfg v t w =
  (Ret (if Z.land (key t) 255 =? 113 then Break else Continue,
        {| gray1 := if md then gray1 v else g2;
           last_notification_time := last';
           frame_count := S (frame_count v) |},
        {| frame2 := l; gray2 := g2; thresh := mask diff; contours := cs;
           motion_detected := md; motion_count := mc; notified := ntf |}),
   {| objects := objects w2; cap := cap w2;
      trace := trace w2 ++
        Imshow "Security Feed" (inl shown)
        :: Imshow "Motion Detection" (inr (mask diff))
        :: (if Z.land (key t) 255 =? 113 then
              [Stdout (newline ++ rule); Stdout "Exiting motion detection...";
               Stdout rule]
            else if Z.land (key t) 255 =? 115 then
              [Imwrite ("snapshot_" ++ snapshot_stamp t ++ ".jpg") shown;
               Stdout ("✓ Snapshot saved: " ++ "snapshot_" ++ snapshot_stamp t
                       ++ ".jpg")]
            else []) |}).
Proof.
  intros l g2 cs md mc shown w1 Ed En. unfold loop_body.
  erewrite bind_ret by reflexivity. cbv zeta. unfold difference. fold g2.
  rewrite Ed.
  erewrite bind_ret by reflexivity.
  erewrite bind_ret by apply contour_loop_spec. cbv beta iota.
  erewrite bind_ret by apply annotate_spec.
  cbn [objects cap trace]. rewrite alter_alter, alter_fresh.
  fold cs. rewrite Nat.add_0_l, orb_false_l.
  pose proof (annotated_eq (frame t) cs (timestamp t)) as Ha. cbv zeta in Ha.
  rewrite Ha. clear Ha. fold md mc shown w1.
  erewrite bind_ret by exact En. cbv beta iota. fold l.
  pose proof (notify_same_store _ _ _ _ _ _ _ _ En) as Hs. unfold same_store in Hs.
  unfold with_frame at 1. unfold mbind at 1, M_bind at 1.
  assert (Hl : objects w2 !! l = Some shown).
  { rewrite Hs. subst w1 l. cbn [objects]. apply list_lookup_middle. reflexivity. }
  rewrite Hl. unfold emit at 1. cbv beta iota.
  erewrite bind_ret by reflexivity. cbv beta iota. cbn [objects cap trace].
  erewrite bind_ret by (apply handle_key_spec; cbn [objects]; exact Hl).
  unfold mret, M_ret. cbn [objects cap trace]. rewrite <- !app_assoc. reflexivity.
Qed.

(** *** What is added to the trace *)

#[local] Instance adds_preorder p : PreOrder (adds p).
Proof.
  split.
  - intros w. exists []. now rewrite app_nil_r.
  - intros w1 w2 w3 (e1 & Ht1 & Hb1) (e2 & Ht2 & Hb2).
    exists (e1 ++ e2). rewrite Ht2, Ht1, app_assoc. split; [done|].
    now apply Forall_app.
Qed.

Lemma emit_adds p ev : p ev = true -> respects (adds p) (emit ev).
Proof. intros Hp w r w' [= _ <-]. exists [ev]. split; [done|]. now constructor. Qed.

Lemma silent_adds p {A} (m : M A) :
  (forall w r w', m w = (r, w') -> trace w' = trace w) -> respects (adds p) m.
Proof. intros Hm w r w' E. exists []. rewrite app_nil_r. split; [eauto | constructor]. Qed.

Lemma alloc_adds p f : respects (adds p) (alloc f).
Proof. apply silent_adds. now intros w r w' [= _ <-]. Qed.

Lemma draw_adds p l op : respects (adds p) (draw l op).
Proof. apply silent_adds. now intros w r w' [= _ <-]. Qed.

Lemma VideoCapture_adds p b : respects (adds p) (VideoCapture b).
Proof. apply silent_adds. now intros w r w' [= _ <-]. Qed.

Lemma isOpened_adds p : respects (adds p) isOpened.
Proof. apply silent_adds. now intros w r w' [= _ <-]. Qed.

Lemma contour_loop_adds p l cs md mc : respects (adds p) (contour_loop l cs md mc).
Proof.
  apply silent_adds. intros w r w'. rewrite contour_loop_spec. now intros [= _ <-].
Qed.

Lemma release_adds p : p CapRelease = true -> respects (adds p) release.
Proof. intros Hp w r w' [= _ <-]. exists [CapRelease]. split; [done|]. now constructor. Qed.

Ltac adds_step :=
  first [ respects_step
        | apply emit_adds; reflexivity
        | apply alloc_adds | apply draw_adds | apply VideoCapture_adds
        | apply isOpened_adds | apply contour_loop_adds
        | apply release_adds; reflexivity
        | progress unfold print, exit ].

Lemma notify_writes_no_file cfg t last md mc :
  respects (adds no_file) (notify cfg t last md mc).
Proof. unfold notify, send_notification. repeat adds_step. Qed.

Lemma snapshots_none (evs : list Event) :
  Forall (fun ev => no_file ev = true) evs -> snapshots evs = [].
Proof.
  induction 1 as [|ev evs Hev _ IH]; [done|].
  unfold snapshots in *. cbn [omap list_omap]. destruct ev; try discriminate Hev; exact IH.
Qed.

Lemma snapshots_app (e1 e2 : list Event) :
  snapshots (e1 ++ e2) = snapshots e1 ++ snapshots e2.
Proof. unfold snapshots. apply omap_app. Qed.

(** The trace of a pass that returns: what the notifier added, the two
    windows, and what the key brought about. *)
Lemma loop_body_trace cfg v t w ctl v' p w' :
  loop_body cfg v t w = (Ret (ctl, v', p), w') ->
  let shown := annotated (frame t) (filterAndBound (contours p) MIN_CONTOUR_AREA)
                         (timestamp t) in
  exists w1 w2,
    trace w1 = trace w /\
    notify cfg t (last_notification_time v) (motion_detected p) (motion_count p) w1
    = (Ret (last_notification_time v', notified p), w2) /\
    trace w' = trace w2 ++
      Imshow "Security Feed" (inl shown)
      :: Imshow "Motion Detection" (inr (thresh p))
      :: (if Z.land (key t) 255 =? 113 then
            [Stdout (newline ++ rule); Stdout "Exiting motion detection...";
             Stdout rule]
          else if Z.land (key t) 255 =? 115 then
            [Imwrite ("snapshot_" ++ snapshot_stamp t ++ ".jpg") shown;
             Stdout ("✓ Snapshot saved: " ++ "snapshot_" ++ snapshot_stamp t
                     ++ ".jpg")]
          else []).
Proof.
  intros E. pose proof (loop_body_cases cfg v t w) as Hc. cbv zeta in Hc.
  destruct (cv2.absdiff (gray1 v) (prepare (frame t))) as [diff|] eqn:Ed.
  2:{ destruct Hc as (e & w2 & E2 & _). congruence. }
  destruct Hc as (r & w2 & En & _).
  destruct r as [[last' ntf]|e].
  - pose proof (loop_body_after_notify cfg v t w diff last' ntf w2 Ed En) as E'.
    cbv zeta in E'. rewrite E in E'. injection E' as -> -> -> ->.
    cbn [contours motion_detected motion_count thresh notified
         last_notification_time trace].
    eexists _, w2. split; [|split; [exact En | reflexivity]]. reflexivity.
  - exfalso. pose proof (loop_body_cases cfg v t w) as Hc. cbv zeta in Hc.
    rewrite Ed in Hc. destruct Hc as (r & w3 & En' & Hr).
    rewrite En in En'. injection En' as <- <-. congruence.
Qed.

(** X7: pressing [s] saves what is on screen: a pass that returns writes a file
    exactly when the low byte of the key code is that of [s]; the file is
    [snapshot_<stamp>.jpg], it holds the annotated frame, and the loop goes
    on. *)
Theorem snapshot_on_s cfg v t w ctl v' p w' :
  loop_body cfg v t w = (Ret (ctl, v', p), w') ->
  exists evs,
    trace w' = trace w ++ evs /\
    snapshots evs =
      (if key t mod 256 =? 115
       then [(("snapshot_" ++ snapshot_stamp t ++ ".jpg")%string,
              annotated (frame t) (filterAndBound (contours p) MIN_CONTOUR_AREA)
                        (timestamp t))]
       else []) /\
    (key t mod 256 = 115 -> ctl = Continue).
Proof.
  intros E. destruct (loop_body_trace _ _ _ _ _ _ _ _ E) as (w1 & w2 & H1 & En & Ht).
  destruct (notify_writes_no_file _ _ _ _ _ _ _ _ En) as (evs & Hn & Hf).
  destruct (loop_body_ret _ _ _ _ _ _ _ _ E) as (_ & _ & _ & _ & _ & _ & _ & _
    & Hctl & _).
  rewrite <- land_255. eexists. split.
  { rewrite Ht, Hn, H1, <- app_assoc. reflexivity. }
  split.
  - rewrite snapshots_app, (snapshots_none _ Hf). cbn [app].
    unfold snapshots. cbn [omap list_omap].
    destruct (Z.eqb_spec (Z.land (key t) 255) 113) as [Hq|Hq].
    + rewrite Hq. reflexivity.
    + destruct (Z.land (key t) 255 =? 115); reflexivity.
  - intros Hs. rewrite Hctl, Hs. reflexivity.
Qed.

(** X8: pressing [q] ends the loop after the pass: a pass that returns says
    [Break] exactly when the low byte of the key code is that of [q] -
    whatever the bits above it - and then the three closing lines are the
    last thing it printed. *)
Theorem quit_on_q cfg v t w ctl v' p w' :
  loop_body cfg v t w = (Ret (ctl, v', p), w') ->
  (ctl = Break <-> key t mod 256 = 113) /\
  (ctl = Break ->
   exists pre,
     trace w' = pre ++ [Stdout (newline ++ rule);
                        Stdout "Exiting motion detection..."; Stdout rule]).
Proof.
  intros E. destruct (loop_body_trace _ _ _ _ _ _ _ _ E) as (w1 & w2 & H1 & En & Ht).
  destruct (loop_body_ret _ _ _ _ _ _ _ _ E) as (_ & _ & _ & _ & _ & _ & _ & _
    & Hctl & _).
  rewrite <- land_255. split.
  - rewrite Hctl. destruct (Z.eqb_spec (Z.land (key t) 255) 113); split; congruence.
  - intros Hb. rewrite Hctl in Hb.
    destruct (Z.land (key t) 255 =? 113); [|discriminate].
    eexists (trace w2 ++ [_; _]). rewrite Ht, <- app_assoc. reflexivity.
Qed.

(** *** Without a password *)

Lemma send_notification_silent cfg net subject body :
  truthy (SENDER_PASSWORD cfg) = false ->
  respects (adds no_smtp) (send_notification cfg net subject body).
Proof. intros Hpw. unfold send_notification. rewrite Hpw. cbn [negb]. repeat adds_step. Qed.

Lemma loop_body_silent cfg v t :
  truthy (SENDER_PASSWORD cfg) = false ->
  respects (adds no_smtp) (loop_body cfg v t).
Proof.
  intros Hpw. unfold loop_body, difference, annotate, notify, handle_key.
  repeat first [ adds_step | apply send_notification_silent; exact Hpw ].
Qed.

Lemma main_loop_silent cfg stream :
  truthy (SENDER_PASSWORD cfg) = false ->
  forall v, respects (adds no_smtp) (main_loop cfg v stream).
Proof.
  intros Hpw. induction stream as [|t rest IH]; intros v; cbn [main_loop].
  - repeat adds_step.
  - apply (respects_bind (adds no_smtp)); [now apply loop_body_silent|].
    intros [[[] v1] p1]; repeat adds_step. apply IH.
Qed.

(** X9: with [SENDER_PASSWORD] unset or empty the program never contacts the
    mail relay, whatever the camera shows and however long it runs. *)
Theorem no_password_no_relay env :
  truthy (SENDER_PASSWORD (config env)) = false ->
  Forall (fun ev => is_smtp ev = false) (trace (snd (main env))).
Proof.
  intros Hpw.
  assert (Hm : respects (adds no_smtp)
                 (try_finally (try_block env) finally_block)).
  { apply (respects_try_finally (adds no_smtp)).
    - unfold try_block, startup.
      repeat first [ adds_step | apply main_loop_silent; exact Hpw ].
    - unfold finally_block. repeat adds_step. }
  unfold main. destruct (try_finally (try_block env) finally_block world0)
    as [r w'] eqn:E.
  destruct (Hm _ _ _ E) as (evs & Ht & Hf). cbn [snd]. rewrite Ht. cbn [trace app].
  eapply Forall_impl; [exact Hf|]. intros ev Hev. unfold no_smtp in Hev.
  now apply negb_true_iff in Hev.
Qed.

(** *** The conversation with the relay *)

Lemma filter_smtp_Stdout (lines : list string) :
  List.filter is_smtp (map Stdout lines) = [].
Proof. induction lines; simpl; done. Qed.

Lemma dispatch_prints (e : exn) w r w' :
  dispatch e
    [ (SMTPAuthenticationError, fun _ =>
         print "✗ Error: SMTP Authentication Failed." ;;
         print "  - Ensure you're using a Google App Password, not your regular account password" ;;
         print "  - Check that SENDER_EMAIL and SENDER_PASSWORD are correct in .env file" ;;
         mret false);
      (SMTPException, fun e =>
         print ("✗ Error sending email: " ++ exc_msg e) ;;
         mret false);
      (Exception, fun e =>
         print ("✗ An unexpected error occurred: " ++ exc_msg e) ;;
         mret false) ] w = (r, w') ->
  exists lines, trace w' = trace w ++ map Stdout lines /\ r <> Ret true.
Proof.
  destruct (isinstance e Exception) eqn:Hi.
  - destruct (dispatch_Exception e w Hi) as (lines & -> & _).
    intros [= <- <-]. exists lines. done.
  - rewrite (dispatch_BaseException e _ _ _ w Hi). intros [= <- <-].
    exists []. cbn. now rewrite app_nil_r.
Qed.

(** Settle the calls made, given the length [k] of the prefix reached. *)
Ltac prefix_of k :=
  exists k;
  split; [ first [ left; reflexivity | right; split; [lia | reflexivity] ] | ];
  split; [ first [ intros Hr; discriminate Hr | intros _; reflexivity ] | ];
  intros H1 H2 H3;
  first [ discriminate H1 | discriminate H2 | discriminate H3
        | split; [lia | reflexivity] ].

Ltac pick_prefix :=
  first [ prefix_of 0%nat | prefix_of 1%nat | prefix_of 2%nat
        | prefix_of 3%nat | prefix_of 4%nat ].

(** X10: the relay is spoken to in one order only: connect, STARTTLS, login,
    message - the credentials never before the channel is encrypted, the
    message never before the login - and a connection that was opened is
    closed again, whichever call failed in between. *)
Theorem relay_calls_in_order cfg net subject body w r w' :
  send_notification cfg net subject body w = (r, w') ->
  exists evs k,
    trace w' = trace w ++ evs /\
    (List.filter is_smtp evs = take k (relay_calls cfg subject body) \/
     ((0 < k)%nat /\
      List.filter is_smtp evs = take k (relay_calls cfg subject body) ++ [SmtpQuit])) /\
    (r = Ret true ->
     List.filter is_smtp evs = relay_calls cfg subject body ++ [SmtpQuit]) /\
    (truthy (SENDER_PASSWORD cfg) = true ->
     compose net = None -> connect net = None -> quit net = None ->
     (0 < k)%nat /\
     List.filter is_smtp evs = take k (relay_calls cfg subject body) ++ [SmtpQuit]).
Proof.
  unfold send_notification.
  destruct (truthy (SENDER_PASSWORD cfg)) eqn:Hpw; cbn [negb].
  2:{ intros [= <- <-]. eexists [_], 0%nat. cbn [trace]. split; [reflexivity|].
      split; [left; reflexivity|]. split; [discriminate|]. discriminate. }
  match goal with
  | |- try_except ?b ?c w = _ -> _ => set (attempt := b); set (clauses := c)
  end.
  assert (Hatt : forall res w1, attempt w = (res, w1) ->
            exists evs, trace w1 = trace w ++ evs /\
            exists k,
              (List.filter is_smtp evs = take k (relay_calls cfg subject body) \/
               ((0 < k)%nat /\
                List.filter is_smtp evs
                = take k (relay_calls cfg subject body) ++ [SmtpQuit])) /\
              (res = Ret true ->
               List.filter is_smtp evs = relay_calls cfg subject body ++ [SmtpQuit]) /\
              (compose net = None -> connect net = None -> quit net = None ->
               (0 < k)%nat /\
               List.filter is_smtp evs
               = take k (relay_calls cfg subject body) ++ [SmtpQuit])).
  { intros res w1 Ea. subst attempt.
    destruct net as [[?|] [?|] [?|] [?|] [?|] [?|]];
      run_in Ea; injection Ea as <- <-; cbn [trace compose connect quit];
      rewrite <- ?app_assoc; cbn [app];
      (eexists; split; [first [reflexivity | symmetry; apply app_nil_r]|]);
      pick_prefix. }
  unfold try_except.
  pose proof (Hatt _ _ (surjective_pairing (attempt w))) as Ha. clear Hatt.
  destruct (attempt w) as [[b|e] w1]; cbn [fst snd] in Ha;
    destruct Ha as (evs & Ht & k & Hk & Hr & Hq).
  - intros [= <- <-].
    exists evs, k. repeat (split; [done|]). intros _. exact Hq.
  - intros Hd.
    destruct (dispatch_prints e w1 r w' Hd) as (lines & Ht' & Hne).
    exists (evs ++ map Stdout lines), k.
    rewrite List.filter_app, filter_smtp_Stdout, app_nil_r.
    split; [now rewrite Ht', Ht, app_assoc|]. split; [exact Hk|].
    split; [intros Hr'; now elim Hne|]. intros _. exact Hq.
Qed.


(** *** Failing early *)

(** X12: when the camera does not open, or opens and gives no first frame,
    the program leaves through [exit()]: it has printed what went wrong, read
    no frame, shown no window, and - in the second case - released the
    camera itself, so that the [finally] block only tears the windows
    down. *)
Theorem startup_failure_exits env :
  camera_opens env = false \/ first_frame env = None ->
  main env =
  (Raise {| exc_class := SystemExit; exc_msg := "" |},
   {| objects := []; cap := Some false;
      trace :=
        (if camera_opens env
         then [Stdout "✓ Camera opened successfully";
               Stdout "✗ Error: Could not read from camera"; CapRelease]
         else [Stdout "✗ Error: Could not open video stream. Check camera permissions."])
        ++ teardown |}).
Proof.
  intros Hfail. unfold main, try_finally, try_block, startup.
  destruct (camera_opens env) eqn:Ho.
  - destruct Hfail as [Hf|Hf]; [discriminate|]. rewrite Hf. reflexivity.
  - reflexivity.
Qed.

Lemma absdiff_None (a b : cv2.Gray) :
  cv2.shape a <> cv2.shape b -> cv2.absdiff a b = None.
Proof. intros Hs. unfold cv2.absdiff. now rewrite decide_False. Qed.

(** X13: a frame whose prepared size is not the reference's is fatal: the pass
    raises [cv2.error] before anything is drawn, shown or sent - the frame
    read is all it leaves behind - and the loop passes the exception on. *)
Theorem resized_frame_is_fatal cfg v t rest w :
  cv2.shape (gray1 v) <> cv2.shape (prepare (frame t)) ->
  exists e,
    exc_class e = cv2_error /\
    loop_body cfg v t w =
      (Raise e, {| objects := objects w ++ [frame t]; cap := cap w;
                   trace := trace w |}) /\
    main_loop cfg v (t :: rest) w =
      (Raise e, {| objects := objects w ++ [frame t]; cap := cap w;
                   trace := trace w |}).
Proof.
  intros Hs. eexists. split; [|split].
  2:{ unfold loop_body. erewrite bind_ret by reflexivity. cbv zeta.
      unfold difference. rewrite (absdiff_None _ _ Hs). reflexivity. }
  - reflexivity.
  - cbn [main_loop]. erewrite bind_raise; [reflexivity|].
    unfold loop_body. erewrite bind_ret by reflexivity. cbv zeta.
    unfold difference. rewrite (absdiff_None _ _ Hs). reflexivity.
Qed.


(** *** The mask *)

Lemma in_image_spec (m : cv2.Gray) x y :
  cv2.in_image m (x, y) = true <->
  0 <= y /\ 0 <= x /\
  exists row, m !! Z.to_nat y = Some row /\ x < Z.of_nat (length row).
Proof.
  unfold cv2.in_image. cbn [fst snd].
  rewrite !andb_true_iff, !Z.leb_le.
  destruct (m !! Z.to_nat y) as [row|].
  - rewrite Z.ltb_lt. split.
    + intros [[? ?] ?]. eauto 6.
    + intros (? & ? & row' & [= <-] & ?). done.
  - split; [intros [_ ?]; discriminate | intros (_ & _ & row & ? & _); discriminate].
Qed.

Lemma at_inside (m : cv2.Gray) y x :
  cv2.at_ m y x <> 0 -> cv2.in_image m (x, y) = true.
Proof.
  unfold cv2.at_. intros Hne. apply in_image_spec.
  destruct (Z.ltb_spec y 0); [done|]. destruct (Z.ltb_spec x 0); [done|].
  cbn [orb] in Hne. split; [done|]. split; [done|].
  destruct (m !! Z.to_nat y) as [row|]; [|done]. exists row. split; [done|].
  cbn in Hne. destruct (row !! Z.to_nat x) eqn:Ex; [|done].
  apply lookup_lt_Some in Ex. lia.
Qed.

Lemma shape_lookup (m : cv2.Gray) i :
  cv2.shape m !! i = length <$> m !! i.
Proof. unfold cv2.shape. apply list_lookup_fmap. Qed.

Lemma in_image_shape (m m' : cv2.Gray) p :
  cv2.shape m = cv2.shape m' -> cv2.in_image m p = cv2.in_image m' p.
Proof.
  intros Hs. unfold cv2.in_image. f_equal.
  pose proof (shape_lookup m (Z.to_nat (snd p))) as H1.
  pose proof (shape_lookup m' (Z.to_nat (snd p))) as H2.
  rewrite Hs in H1. rewrite H1 in H2.
  destruct (m !! Z.to_nat (snd p)), (m' !! Z.to_nat (snd p)); cbn in H2;
    try done. now injection H2 as ->.
Qed.

Lemma shape_dilate3x3 (m : cv2.Gray) : cv2.shape (cv2.dilate3x3 m) = cv2.shape m.
Proof.
  apply list_eq. intros i. unfold cv2.shape, cv2.dilate3x3.
  rewrite !list_lookup_fmap, list_lookup_imap. unfold cv2.Gray in *.
  destruct (m !! i) as [row|]; cbn; [|reflexivity].
  now rewrite length_imap.
Qed.

Lemma shape_threshold (m : cv2.Gray) (level maxval : Z) ty :
  cv2.shape (snd (cv2.threshold m level maxval ty)) = cv2.shape m.
Proof.
  unfold cv2.shape, cv2.threshold. simpl. rewrite map_map.
  apply map_ext. intros row. apply length_map.
Qed.

Lemma at_dilate3x3 (m : cv2.Gray) y x :
  cv2.at_ (cv2.dilate3x3 m) y x
  = if cv2.in_image m (x, y) then cv2.dilate_px m y x else 0.
Proof.
  destruct (cv2.in_image m (x, y)) eqn:Hin.
  - apply in_image_spec in Hin as (Hy & Hx & row & Hr & Hlt).
    unfold cv2.at_. destruct (Z.ltb_spec y 0); [lia|].
    destruct (Z.ltb_spec x 0); [lia|]. cbn [orb].
    unfold cv2.dilate3x3, cv2.Gray in *. rewrite list_lookup_imap, Hr. cbn.
    rewrite list_lookup_imap.
    destruct (row !! Z.to_nat x) eqn:Ex.
    + cbn. now rewrite !Z2Nat.id by lia.
    + apply lookup_ge_None in Ex. lia.
  - destruct (Z.eq_dec (cv2.at_ (cv2.dilate3x3 m) y x) 0) as [|Hne]; [done|].
    apply at_inside in Hne.
    rewrite (in_image_shape _ m) in Hne by apply shape_dilate3x3. congruence.
Qed.

Lemma at_threshold (diff : cv2.Gray) y x :
  cv2.at_ (snd (cv2.threshold diff MOTION_THRESHOLD 255 cv2.THRESH_BINARY)) y x
  = if MOTION_THRESHOLD <? cv2.at_ diff y x then 255 else 0.
Proof.
  unfold cv2.at_, cv2.threshold, cv2.Gray in *. cbn [snd].
  destruct ((y <? 0) || (x <? 0)); [reflexivity|].
  rewrite list_lookup_fmap. destruct (diff !! Z.to_nat y) as [row|]; cbn; [|reflexivity].
  rewrite list_lookup_fmap. destruct (row !! Z.to_nat x); cbn; reflexivity.
Qed.

Lemma in_kernel3x3 (d : cv2.Point) :
  In d cv2.kernel3x3 <-> -1 <= fst d <= 1 /\ -1 <= snd d <= 1.
Proof.
  destruct d as [dx dy]. cbn [fst snd]. unfold cv2.kernel3x3. split.
  - simpl. intros Hd. repeat (destruct Hd as [[= <- <-]|Hd]; [lia|]). done.
  - intros [Hx Hy].
    assert (Hdx : dx = -1 \/ dx = 0 \/ dx = 1) by lia.
    assert (Hdy : dy = -1 \/ dy = 0 \/ dy = 1) by lia.
    destruct Hdx as [->|[->| ->]], Hdy as [->|[->| ->]]; simpl; auto 10.
Qed.

Lemma fold_max_two_valued (l : list Z) :
  Forall (fun a => a = 0 \/ a = 255) l ->
  (fold_right Z.max 0 l = 255 /\ In 255 l) \/
  (fold_right Z.max 0 l = 0 /\ ~ In 255 l).
Proof.
  induction 1 as [|a l Ha _ IH]; simpl.
  - right. split; [done | tauto].
  - destruct Ha as [->| ->], IH as [[-> Hin]|[-> Hnin]].
    + left. split; [done | tauto].
    + right. split; [done|]. intros [?|?]; [done | tauto].
    + left. split; [done | tauto].
    + left. split; [done | tauto].
Qed.

Lemma dilate_px_two_valued (m : cv2.Gray) y x :
  two_valued m ->
  (cv2.dilate_px m y x = 255 /\
   exists dy dx, -1 <= dy <= 1 /\ -1 <= dx <= 1 /\ cv2.at_ m (y + dy) (x + dx) = 255) \/
  (cv2.dilate_px m y x = 0 /\
   forall dy dx, -1 <= dy <= 1 -> -1 <= dx <= 1 -> cv2.at_ m (y + dy) (x + dx) <> 255).
Proof.
  intros Hb. unfold cv2.dilate_px.
  destruct (fold_max_two_valued
              (map (fun d => cv2.at_ m (y + snd d) (x + fst d)) cv2.kernel3x3))
    as [[Hf Hin]|[Hf Hnin]].
  - apply List.Forall_forall. intros a (d & <- & _)%in_map_iff. apply Hb.
  - left. split; [exact Hf|]. apply in_map_iff in Hin as (d & Hd & Hk).
    apply in_kernel3x3 in Hk. exists (snd d), (fst d). tauto.
  - right. split; [exact Hf|]. intros dy dx Hdy Hdx Hat. apply Hnin.
    apply in_map_iff. exists (dx, dy). split; [exact Hat|].
    apply in_kernel3x3. cbn [fst snd]. lia.
Qed.

Lemma dilate3x3_two_valued (m : cv2.Gray) : two_valued m -> two_valued (cv2.dilate3x3 m).
Proof.
  intros Hb y x. rewrite at_dilate3x3. destruct (cv2.in_image m (x, y)); [|now left].
  destruct (dilate_px_two_valued m y x Hb) as [[-> _]|[-> _]]; [now right | now left].
Qed.

Lemma dilate3x3_255 (m : cv2.Gray) y x :
  two_valued m ->
  cv2.at_ (cv2.dilate3x3 m) y x = 255 <->
  cv2.in_image m (x, y) = true /\
  exists dy dx, -1 <= dy <= 1 /\ -1 <= dx <= 1 /\ cv2.at_ m (y + dy) (x + dx) = 255.
Proof.
  intros Hb. rewrite at_dilate3x3. destruct (cv2.in_image m (x, y)).
  - destruct (dilate_px_two_valued m y x Hb) as [[-> Hex]|[-> Hall]].
    + tauto.
    + split; [done|]. intros (_ & dy & dx & Hdy & Hdx & Hat). now elim (Hall dy dx).
  - split; [done | intros [? _]; done].
Qed.

Lemma threshold_two_valued (diff : cv2.Gray) :
  two_valued (snd (cv2.threshold diff MOTION_THRESHOLD 255 cv2.THRESH_BINARY)).
Proof.
  intros y x. rewrite at_threshold.
  destruct (MOTION_THRESHOLD <? cv2.at_ diff y x); [now right | now left].
Qed.

Lemma in_image_rect W (m : cv2.Gray) x y :
  rectangular W m ->
  cv2.in_image m (x, y) = true <->
  0 <= y < Z.of_nat (length m) /\ 0 <= x < Z.of_nat W.
Proof.
  intros Hr. rewrite in_image_spec. split.
  - intros (Hy & Hx & row & Hrow & Hlt).
    pose proof (lookup_lt_Some _ _ _ Hrow) as Hlen.
    unfold rectangular in Hr. rewrite Forall_lookup in Hr.
    rewrite (Hr _ _ Hrow) in Hlt. lia.
  - intros [Hy Hx].
    destruct (lookup_lt_is_Some_2 m (Z.to_nat y)) as [row Hrow]; [lia|].
    unfold rectangular in Hr. rewrite Forall_lookup in Hr.
    split; [lia|]. split; [lia|]. exists row. split; [done|].
    rewrite (Hr _ _ Hrow). lia.
Qed.

(** X14: in an image with rows of one length, the mask of lines 122-125 is set
    exactly at the samples that have, within two steps in each direction, a
    sample of the difference above the sensitivity; everywhere else it is 0.
    It has the shape of the difference. *)
Theorem mask_is_neighbourhood W (diff : cv2.Gray) y x :
  rectangular W diff ->
  (cv2.at_ (mask diff) y x = 255 <->
   cv2.in_image diff (x, y) = true /\
   exists dy dx, -2 <= dy <= 2 /\ -2 <= dx <= 2 /\
                 MOTION_THRESHOLD < cv2.at_ diff (y + dy) (x + dx)) /\
  (cv2.at_ (mask diff) y x = 0 \/ cv2.at_ (mask diff) y x = 255) /\
  cv2.shape (mask diff) = cv2.shape diff.
Proof.
  intros Hr. unfold mask. cbn [cv2.dilate Nat.iter].
  set (th := snd (cv2.threshold diff MOTION_THRESHOLD 255 cv2.THRESH_BINARY)).
  assert (Hth : two_valued th) by apply threshold_two_valued.
  assert (Hsh : cv2.shape th = cv2.shape diff) by apply shape_threshold.
  assert (Hat : forall y x, cv2.at_ th y x = 255 <->
                            MOTION_THRESHOLD < cv2.at_ diff y x).
  { intros y0 x0. subst th. rewrite at_threshold.
    destruct (Z.ltb_spec MOTION_THRESHOLD (cv2.at_ diff y0 x0)); split; (done || lia). }
  assert (Hin : forall p, cv2.in_image th p = cv2.in_image diff p)
    by (intros p; now apply in_image_shape).
  split; [|split].
  - rewrite (dilate3x3_255 _ y x (dilate3x3_two_valued _ Hth)).
    rewrite (in_image_shape _ th) by apply shape_dilate3x3. rewrite Hin. split.
    + intros (Hxy & dy1 & dx1 & Hy1 & Hx1 & H1). split; [exact Hxy|].
      apply (dilate3x3_255 _ _ _ Hth) in H1 as (_ & dy2 & dx2 & Hy2 & Hx2 & H2).
      exists (dy1 + dy2), (dx1 + dx2). split; [lia|]. split; [lia|].
      apply Hat. now rewrite !Z.add_assoc.
    + intros (Hxy & dy & dx & Hy & Hx & Hd). split; [exact Hxy|].
      assert (Hfar : cv2.in_image diff (x + dx, y + dy) = true).
      { apply at_inside. unfold MOTION_THRESHOLD in Hd. lia. }
      apply (in_image_rect W _ _ _ Hr) in Hxy, Hfar.
      exists (Z.max (-1) (Z.min 1 dy)), (Z.max (-1) (Z.min 1 dx)).
      split; [lia|]. split; [lia|].
      apply (dilate3x3_255 _ _ _ Hth). rewrite Hin. split.
      * apply (in_image_rect W _ _ _ Hr). lia.
      * exists (dy - Z.max (-1) (Z.min 1 dy)), (dx - Z.max (-1) (Z.min 1 dx)). split; [lia|]. split; [lia|].
        apply Hat.
        replace (y + Z.max (-1) (Z.min 1 dy) + (dy - Z.max (-1) (Z.min 1 dy))) with (y + dy) by lia.
        replace (x + Z.max (-1) (Z.min 1 dx) + (dx - Z.max (-1) (Z.min 1 dx))) with (x + dx) by lia.
        exact Hd.
  - apply (dilate3x3_two_valued _ (dilate3x3_two_valued _ Hth)).
  - etransitivity; [apply shape_dilate3x3|].
    etransitivity; [apply shape_dilate3x3|]. exact Hsh.
Qed.

(** *** Slow changes *)

Lemma faint_change_spec (ref g : cv2.Gray) :
  faint_change ref g = true ->
  exists diff, cv2.absdiff ref g = Some diff /\
               Forall (Forall (fun d => d <= MOTION_THRESHOLD)) diff.
Proof.
  unfold faint_change. destruct (cv2.absdiff ref g) as [diff|]; [|done].
  intros Hf. exists diff. split; [done|].
  apply List.Forall_forall. intros row Hrow.
  rewrite forallb_forall in Hf. specialize (Hf row Hrow).
  apply List.Forall_forall. intros d Hd.
  rewrite forallb_forall in Hf. specialize (Hf d Hd). lia.
Qed.

(** A pass over a faint change: nothing found, nothing sent, the frame is
    the new reference. *)
Lemma loop_body_faint cfg v t w diff :
  cv2.absdiff (gray1 v) (prepare (frame t)) = Some diff ->
  Forall (Forall (fun d => d <= MOTION_THRESHOLD)) diff ->
  exists ctl p w' evs,
    loop_body cfg v t w =
      (Ret (ctl, {| gray1 := prepare (frame t);
                    last_notification_time := last_notification_time v;
                    frame_count := S (frame_count v) |}, p), w') /\
    ctl = (if Z.land (key t) 255 =? 113 then Break else Continue) /\
    thresh p = mask diff /\ contours p = [] /\
    motion_detected p = false /\ motion_count p = 0%nat /\ notified p = None /\
    trace w' = trace w ++ evs /\ Forall (fun ev => is_smtp ev = false) evs.
Proof.
  intros Hd Hs.
  assert (Hz : all_zero (mask diff))
    by (unfold mask; apply dilate_all_zero, threshold_below, Hs).
  pose proof (find_all_zero _ Hz) as Hf.
  pose proof (loop_body_after_notify cfg v t w diff (last_notification_time v)
                None) as Hb.
  cbv zeta in Hb. rewrite Hf in Hb. cbn [existsb List.filter length] in Hb.
  specialize (Hb _ Hd eq_refl). cbn [objects cap trace] in Hb.
  eexists _, _, _, _. split; [exact Hb|].
  cbn [thresh contours motion_detected motion_count notified trace].
  repeat (split; [reflexivity|]).
  repeat constructor.
  destruct (Z.land (key t) 255 =? 113); [repeat constructor|].
  destruct (Z.land (key t) 255 =? 115); repeat constructor.
Qed.

Lemma last_cons_default {A} (x d : A) (l : list A) :
  List.last (x :: l) d = List.last l x.
Proof. revert x d. induction l as [|y l IH]; intros x d; [reflexivity|].
  change (List.last (x :: y :: l) d) with (List.last (y :: l) d).
  now rewrite !IH. Qed.

(** X15: a scene that changes slowly never alerts.  When every frame
    differs from the one before it - the first from the reference - by no
    more than the sensitivity at every sample, the loop returns, no pass
    sees motion or calls the notifier, the relay is never contacted, and the
    reference has followed the drift: it is the last frame taken, however
    far that is from the reference the run began with. *)
Theorem slow_drift_never_alerts cfg stream : forall v w,
  drifting (gray1 v) stream = true ->
  exists vN ps wN evs,
    main_loop cfg v stream w = (Ret (vN, ps), wN) /\
    Forall (fun p => motion_detected p = false /\ notified p = None) ps /\
    last_notification_time vN = last_notification_time v /\
    gray1 vN = List.last (map (fun t => prepare (frame t)) (until_quit stream))
                         (gray1 v) /\
    trace wN = trace w ++ evs /\
    Forall (fun ev => is_smtp ev = false) evs.
Proof.
  induction stream as [|t rest IH]; intros v w Hd.
  - eexists v, [], _, [_]. split; [reflexivity|]. split; [constructor|].
    split; [reflexivity|]. split; [reflexivity|]. split; [reflexivity|].
    repeat constructor.
  - cbn [drifting] in Hd. apply andb_true_iff in Hd as [Hf Hrest].
    apply faint_change_spec in Hf as (diff & Hdiff & Hs).
    destruct (loop_body_faint cfg v t w diff Hdiff Hs)
      as (ctl & p & w1 & evs & E & Hctl & _ & _ & Hm & _ & Hn & Ht & Hevs).
    cbn [main_loop]. erewrite bind_ret by exact E. cbv beta iota.
    destruct (Z.land (key t) 255 =? 113) eqn:K; subst ctl.
    + eexists _, [p], w1, evs. split; [reflexivity|].
      split; [repeat constructor; done|]. split; [reflexivity|].
      split; [cbn [until_quit]; unfold is_quit; rewrite K; reflexivity|].
      done.
    + destruct (IH {| gray1 := prepare (frame t);
                      last_notification_time := last_notification_time v;
                      frame_count := S (frame_count v) |} w1 Hrest)
        as (vN & ps & wN & evs' & E' & Hps & Hl & Hg & Ht' & Hevs').
      exists vN, (p :: ps), wN, (evs ++ evs').
      split; [erewrite bind_ret by exact E'; reflexivity|].
      split; [constructor; [done | exact Hps]|].
      split; [exact Hl|].
      split; [cbn [until_quit]; unfold is_quit; rewrite K; cbn [map];
              rewrite last_cons_default; exact Hg|].
      split; [now rewrite Ht', Ht, app_assoc|].
      now apply Forall_app.
Qed.

(** An exception of the relay that is no [Exception] goes through all
    three [except] clauses. *)
Lemma send_notification_interrupted cfg net subject body w e :
  truthy (SENDER_PASSWORD cfg) = true ->
  raised net = [e] ->
  isinstance e Exception = false ->
  exists w', send_notification cfg net subject body w = (Raise e, w') /\
             objects w' = objects w.
Proof.
  intros Hpw Hr Hi. unfold send_notification. rewrite Hpw. cbn [negb].
  match goal with
  | |- context [try_except ?b ?c] => set (attempt := b); set (clauses := c)
  end.
  assert (Ha : exists w1, attempt w = (Raise e, w1) /\ objects w1 = objects w).
  { destruct (attempt w) as [r w1] eqn:E. subst attempt.
    destruct net as [[?|] [?|] [?|] [?|] [?|] [?|]]; try discriminate Hr;
      injection Hr as ->; run_in E; injection E as <- <-;
      eexists; split; reflexivity. }
  destruct Ha as (w1 & Ea & Ho). unfold try_except. rewrite Ea.
  subst clauses. rewrite (dispatch_BaseException e _ _ _ _ Hi). eauto.
Qed.

(** *** Interrupts

    What the notifier adds to the trace is neither a window nor a file. *)
Lemma send_notification_off_screen cfg net subject body :
  respects (adds off_screen) (send_notification cfg net subject body).
Proof. unfold send_notification. repeat adds_step. Qed.

(** X16: an exception of the relay that is not an [Exception] - a
    [KeyboardInterrupt] while the login waits, say - is not held back by the
    notifier: the pass that tried to alert raises it, having shown nothing
    and written no file, and the loop passes it on without reading the rest
    of the stream. *)
Theorem interrupt_during_send_is_fatal cfg v t rest w diff e :
  cv2.absdiff (gray1 v) (prepare (frame t)) = Some diff ->
  existsb keeps (find (mask diff)) = true ->
  (NOTIFICATION_DELAY < clock_gate t - last_notification_time v)%Q ->
  truthy (SENDER_PASSWORD cfg) = true ->
  raised (smtp t) = [e] ->
  isinstance e Exception = false ->
  exists w' evs,
    loop_body cfg v t w = (Raise e, w') /\
    main_loop cfg v (t :: rest) w = (Raise e, w') /\
    trace w' = trace w ++ evs /\
    Forall (fun ev => off_screen ev = true) evs.
Proof.
  intros Hd Hm Hg Hpw Hr Hi.
  pose proof (loop_body_cases cfg v t w) as Hc. cbv zeta in Hc.
  rewrite Hd in Hc. destruct Hc as (r & w2 & En & Hb).
  revert En. unfold notify. rewrite Hm. cbn [andb].
  apply Qltb_lt in Hg. rewrite Hg. cbv zeta.
  match goal with
  | |- (send_notification cfg (smtp t) ?subject ?body ≫= _) ?w1 = _ -> _ =>
      destruct (send_notification_interrupted cfg (smtp t) subject body
                  w1 e Hpw Hr Hi) as (w' & Es & _);
      pose proof (send_notification_off_screen _ _ _ _ _ _ _ Es)
        as (evs & Ht & Hevs)
  end.
  intros En. erewrite bind_raise in En by exact Es. injection En as <- <-.
  exists w', evs. split; [exact Hb|]. split.
  - cbn [main_loop]. now erewrite bind_raise by exact Hb.
  - split; [exact Ht | exact Hevs].
Qed.

(** The trace of a notification that succeeded. *)
Lemma send_notification_true cfg net subject body w w' :
  send_notification cfg net subject body w = (Ret true, w') ->
  exists evs,
    trace w' = trace w ++ evs /\
    List.filter is_smtp evs = relay_calls cfg subject body ++ [SmtpQuit].
Proof.
  intros E.
  destruct (send_notification_cases cfg net subject body w) as (r & w1 & E1 & Hr).
  rewrite E in E1. injection E1 as <- <-. destruct Hr as [Hpw Hnil].
  revert E. unfold send_notification. rewrite Hpw. cbn [negb]. unfold try_except.
  destruct net as [[?|] [?|] [?|] [?|] [?|] [?|]]; try discriminate Hnil.
  match goal with
  | |- (let (_, _) := ?b w in _) = _ -> _ => destruct (b w) as [rb wb] eqn:Eb
  | |- match ?b w with _ => _ end = _ -> _ => destruct (b w) as [rb wb] eqn:Eb
  end.
  run_in Eb. injection Eb as <- <-. intros [= <-]. cbn [trace].
  rewrite <- !app_assoc. cbn [app]. eexists. split; [reflexivity|]. reflexivity.
Qed.

(** X17: the alert says what the screen shows.  A pass whose alert went
    out made the relay calls once, in order; the message counts as many
    objects as boxes were drawn on the frame, at least one; and the line
    printed on success carries that count and the timestamp of the
    overlay. *)
Theorem alert_reports_what_is_drawn cfg v t w ctl v' p w' :
  loop_body cfg v t w = (Ret (ctl, v', p), w') ->
  notified p = Some true ->
  let n := length (filterAndBound (contours p) MIN_CONTOUR_AREA) in
  (0 < n)%nat /\
  exists evs,
    trace w' = trace w ++ evs /\
    List.filter is_smtp evs =
      relay_calls cfg "🚨 Motion Detected!"
        ("Motion was detected by the camera at " ++ body_stamp t ++ "."
         ++ newline ++ newline ++ "Number of objects detected: " ++ str_nat n)
      ++ [SmtpQuit] /\
    In (Stdout ("[" ++ timestamp t ++ "] Alert sent! Motion with "
                ++ str_nat n ++ " object(s) detected.")) evs.
Proof.
  intros E Hn n.
  destruct (loop_body_ret _ _ _ _ _ _ _ _ E) as (_ & _ & _ & _ & _ & _ & Hmd & Hmc
    & _ & _ & _ & _ & _ & Hgate). cbv zeta in Hgate. rewrite Hn in Hgate.
  destruct Hgate as (Hg & _).
  assert (Hcount : motion_count p = n).
  { rewrite Hmc. subst n. unfold filterAndBound. rewrite length_map. reflexivity. }
  split.
  { apply andb_true_iff in Hg as [Hm _]. rewrite Hmd in Hm.
    rewrite <- Hcount, Hmc. apply existsb_exists in Hm as (c & Hc & Hk).
    assert (Hin : In c (List.filter keeps (contours p))) by (apply filter_In; done).
    destruct (List.filter keeps (contours p)); [destruct Hin | simpl; lia]. }
  destruct (loop_body_trace _ _ _ _ _ _ _ _ E) as (w1 & w2 & Hw1 & En & Ht).
  unfold notify in En. rewrite Hg, Hn, Hcount in En.
  match type of En with
  | (send_notification cfg (smtp t) ?subject ?body ≫= _) w1 = _ =>
      destruct (send_notification cfg (smtp t) subject body w1) as [r ws] eqn:Es
  end.
  destruct r as [[|]|ex].
  - destruct (send_notification_true _ _ _ _ _ _ Es) as (evs & Hts & Hf).
    erewrite bind_ret in En by exact Es. cbv beta iota in En.
    unfold mbind, M_bind, print, emit, mret, M_ret in En.
    injection En as _ <-. cbn [trace] in Ht.
    eexists. split; [rewrite Ht, Hts, Hw1, <- !app_assoc; reflexivity|].
    split.
    + rewrite List.filter_app, Hf. cbn [app List.filter is_smtp].
      destruct (Z.land (key t) 255 =? 113); [now rewrite app_nil_r|].
      destruct (Z.land (key t) 255 =? 115); now rewrite app_nil_r.
    + apply in_or_app. right. now left.
  - erewrite bind_ret in En by exact Es. discriminate En.
  - erewrite bind_raise in En by exact Es. discriminate En.
Qed.
End Properties.

(** ** The scene, run *)

Lemma first_pass :
  loop_body cfg_ok vars0 t_first world0 = (Ret (c_first, v_first, p_first), w_first).
Proof. vm_compute. reflexivity. Qed.

Lemma close_pass :
  loop_body cfg_ok v_first t_close w_first = (Ret (Continue, v_close, p_close), w_close).
Proof. vm_compute. reflexivity. Qed.



(** A block one sample smaller each way (19 x 19) stays below the filter:
    dilated it is 23 x 23 and the area inside its border is 484. *)
Example smaller_block_is_noise :
  let diff := block_grid 26 26 3 3 19 19 255 0 in
  map cv2.contourArea (find (mask diff)) = [968 # 2] /\
  existsb keeps (find (mask diff)) = false.
Proof. split; vm_compute; reflexivity. Qed.




(** C9 fails as stated: the array the frame was read into is the one the
    pass has drawn on - it is no longer the frame as captured - and the pass
    has added no other array to the store. *)
Lemma C9_counterexample :
  exists ctl v' p w',
    loop_body cfg_ok vars0 t_first world0 = (Ret (ctl, v', p), w') /\
    objects w' !! frame2 p <> Some (frame t_first) /\
    drawn <$> objects w' !! frame2 p =
      Some [Rectangle (1, 1) (25, 25) (0, 255, 0) 2;
            PutText "2024-01-01 00:00:00" (10, 30) FONT_HERSHEY_SIMPLEX (7 # 10)
                    (255, 255, 255) 2;
            PutText "MOTION DETECTED (1 objects)" (10, 70) FONT_HERSHEY_SIMPLEX
                    (7 # 10) (0, 0, 255) 2] /\
    length (objects w') = S (length (objects world0)).
Proof.
  exists c_first, v_first, p_first, w_first. split; [exact first_pass|].
  split; [|split].
  - intros Heq. apply (f_equal (fmap drawn)) in Heq. vm_compute in Heq.
    discriminate Heq.
  - vm_compute. reflexivity.
  - vm_compute. reflexivity.
Qed.

Lemma C9_annotation_in_place_witness :
  loop_body cfg_ok vars0 t_first world0 = (Ret (c_first, v_first, p_first), w_first) /\
  let regions := filterAndBound (contours p_first) MIN_CONTOUR_AREA in
  let shown := annotated (frame t_first) regions (timestamp t_first) in
  frame2 p_first = length (objects world0) /\
  objects w_first = objects world0 ++ [shown] /\
  objects w_first !! frame2 p_first = Some shown /\
  In (Imshow "Security Feed" (inl shown)) (trace w_first) /\
  gray2 p_first = prepare (frame t_first) /\
  motion_count p_first = length regions /\
  (motion_detected p_first = true <-> regions <> []).
Proof.
  assert (E : loop_body cfg_ok vars0 t_first world0
              = (Ret (c_first, v_first, p_first), w_first))
    by (vm_compute; reflexivity).
  split; [exact E|].
  exact (C9_annotation_in_place cfg_ok vars0 t_first world0 _ _ _ _ E).
Defined.

Lemma C3_reference_update_witness :
  loop_body cfg_ok vars0 t_still world0 = (Ret (Continue, v_still, p_still), w_still) /\
  main_loop cfg_ok vars0 [t_still; t_still] world0
    = (Ret (fst quiet_run, snd quiet_run), quiet_world) /\
  snd quiet_run <> [] /\
  Forall (fun q => motion_detected q = false) (snd quiet_run) /\
  gray1 v_still = gray2 p_still /\
  gray1 (fst quiet_run) = prepare (frame t_still).
Proof.
  assert (E : loop_body cfg_ok vars0 t_still world0
              = (Ret (Continue, v_still, p_still), w_still))
    by (vm_compute; reflexivity).
  assert (EN : main_loop cfg_ok vars0 [t_still; t_still] world0
               = (Ret (fst quiet_run, snd quiet_run), quiet_world))
    by (vm_compute; reflexivity).
  assert (Hne : snd quiet_run <> []) by (vm_compute; discriminate).
  assert (Hall : Forall (fun q => motion_detected q = false) (snd quiet_run))
    by (repeat constructor).
  destruct (C3_reference_update cfg_ok vars0 t_still world0 _ _ _ _
              [t_still; t_still] _ _ _ E EN Hne Hall)
    as (_ & Hquiet & _ & tN & HtN & Hg).
  split; [exact E|]. split; [exact EN|]. split; [exact Hne|].
  split; [exact Hall|]. split; [apply Hquiet; reflexivity|].
  vm_compute in HtN. injection HtN as <-. exact Hg.
Defined.



(** ** The properties, at the scene *)

Lemma below_dec (diff : cv2.Gray) :
  forallb (forallb (fun d => d <=? MOTION_THRESHOLD)) diff = true ->
  Forall (Forall (fun d => d <= MOTION_THRESHOLD)) diff.
Proof.
  intros Hf. apply List.Forall_forall. intros row Hrow.
  rewrite forallb_forall in Hf. specialize (Hf row Hrow).
  apply List.Forall_forall. intros d Hd.
  rewrite forallb_forall in Hf. specialize (Hf d Hd). lia.
Qed.

Lemma reference_frozen_under_motion_witness :
  main_loop cfg_ok vars0 [t_first; t_close; t_late] world0
    = (Ret (fst alert_run, snd alert_run), alert_world) /\
  map motion_detected (snd alert_run) = [true; true; true] /\
  gray1 (fst alert_run) = gray1 vars0.
Proof.
  assert (E : main_loop cfg_ok vars0 [t_first; t_close; t_late] world0
              = (Ret (fst alert_run, snd alert_run), alert_world))
    by (vm_compute; reflexivity).
  split; [exact E|]. split; [reflexivity|].
  apply (reference_frozen_under_motion cfg_ok _ _ _ _ _ _ E).
  repeat constructor.
Defined.


Lemma below_sensitivity_is_no_motion_witness :
  cv2.absdiff (gray1 vars0) (prepare (frame t_faint)) = Some diff_faint /\
  exists ctl v' p w',
    loop_body cfg_ok vars0 t_faint world0 = (Ret (ctl, v', p), w') /\
    all_zero (thresh p) /\ contours p = [] /\
    motion_detected p = false /\ motion_count p = 0%nat /\
    notified p = None /\
    gray1 v' = prepare (frame t_faint) /\
    last_notification_time v' = last_notification_time vars0.
Proof.
  assert (Hd : cv2.absdiff (gray1 vars0) (prepare (frame t_faint)) = Some diff_faint)
    by (vm_compute; reflexivity).
  split; [exact Hd|].
  apply (below_sensitivity_is_no_motion cfg_ok vars0 t_faint world0 diff_faint Hd).
  apply below_dec. vm_compute. reflexivity.
Defined.

Lemma successful_alerts_are_spaced_witness :
  main_loop cfg_ok vars0 [t_first; t_close; t_late] world0
    = (Ret (fst alert_run, snd alert_run), alert_world) /\
  map notified (snd alert_run) = [Some true; None; Some true] /\
  (NOTIFICATION_DELAY < clock_gate t_late - clock_sent t_first)%Q.
Proof.
  assert (E : main_loop cfg_ok vars0 [t_first; t_close; t_late] world0
              = (Ret (fst alert_run, snd alert_run), alert_world))
    by (vm_compute; reflexivity).
  split; [exact E|]. split; [reflexivity|].
  apply (successful_alerts_are_spaced cfg_ok _ _ _ _ _ _ 0%nat 2%nat
           (nth 0 (snd alert_run) pass0) (nth 2 (snd alert_run) pass0)
           t_first t_late E).
  - repeat (constructor; [vm_compute; discriminate|]). constructor.
  - lia.
  - vm_compute. reflexivity.
  - vm_compute. reflexivity.
  - reflexivity.
  - reflexivity.
  - vm_compute. reflexivity.
  - vm_compute. reflexivity.
Defined.

Lemma program_ends_normally_witness :
  camera_opens env_long = true /\
  first_frame env_long = Some still /\
  map (fun t => raised (smtp t)) (stream env_long)
    = [[]; [{| exc_class := SMTPAuthenticationError;
               exc_msg := "(535, b'5.7.8 Username and Password not accepted')" |}];
       []] /\
  fst (main env_long) = Ret tt.
Proof.
  split; [reflexivity|]. split; [reflexivity|]. split; [reflexivity|].
  apply (program_ends_normally env_long still).
  - reflexivity.
  - reflexivity.
  - repeat (constructor; [vm_compute; reflexivity|]). constructor.
  - repeat (constructor; [repeat constructor|]). constructor.
Defined.

Lemma passes_until_quit_witness :
  main_loop cfg_ok vars0 [t_still; t_quit; t_late] world0
    = (Ret (fst quit_run, snd quit_run), quit_world) /\
  until_quit [t_still; t_quit; t_late] = [t_still; t_quit] /\
  map gray2 (snd quit_run)
    = map (fun t => prepare (frame t)) (until_quit [t_still; t_quit; t_late]) /\
  length (snd quit_run) = length (until_quit [t_still; t_quit; t_late]) /\
  frame_count (fst quit_run) = (frame_count vars0 + length (snd quit_run))%nat.
Proof.
  assert (E : main_loop cfg_ok vars0 [t_still; t_quit; t_late] world0
              = (Ret (fst quit_run, snd quit_run), quit_world))
    by (vm_compute; reflexivity).
  split; [exact E|]. split; [reflexivity|].
  exact (passes_until_quit cfg_ok _ _ _ _ _ _ E).
Defined.

Lemma snapshot_on_s_witness :
  loop_body cfg_ok vars0 t_snap world0 = (Ret (Continue, v_snap, p_snap), w_snap) /\
  exists evs,
    trace w_snap = trace world0 ++ evs /\
    snapshots evs =
      (if key t_snap mod 256 =? 115
       then [(("snapshot_" ++ snapshot_stamp t_snap ++ ".jpg")%string,
              annotated (frame t_snap)
                        (filterAndBound (contours p_snap) MIN_CONTOUR_AREA)
                        (timestamp t_snap))]
       else []) /\
    (key t_snap mod 256 = 115 -> Continue = Continue).
Proof.
  assert (E : loop_body cfg_ok vars0 t_snap world0
              = (Ret (Continue, v_snap, p_snap), w_snap))
    by (vm_compute; reflexivity).
  split; [exact E|].
  exact (snapshot_on_s cfg_ok vars0 t_snap world0 _ _ _ _ E).
Defined.

Lemma quit_on_q_witness :
  loop_body cfg_ok vars0 t_quit world0 = (Ret (Break, v_quit, p_quit), w_quit) /\
  key t_quit = 1048689 /\
  (Break = Break <-> key t_quit mod 256 = 113) /\
  (Break = Break ->
   exists pre,
     trace w_quit = pre ++ [Stdout (newline ++ rule);
                            Stdout "Exiting motion detection..."; Stdout rule]).
Proof.
  assert (E : loop_body cfg_ok vars0 t_quit world0
              = (Ret (Break, v_quit, p_quit), w_quit))
    by (vm_compute; reflexivity).
  split; [exact E|]. split; [reflexivity|].
  exact (quit_on_q cfg_ok vars0 t_quit world0 _ _ _ _ E).
Defined.

Lemma no_password_no_relay_witness :
  truthy (SENDER_PASSWORD (config env_no_password)) = false /\
  Forall (fun ev => is_smtp ev = false) (trace (snd (main env_no_password))).
Proof.
  split; [reflexivity|].
  apply (no_password_no_relay env_no_password). reflexivity.
Defined.

Lemma relay_calls_in_order_witness :
  send_notification cfg_ok relay_rejects "subject" "body" world0
    = (fst rejected_send, snd rejected_send) /\
  fst rejected_send = Ret false /\
  exists evs k,
    trace (snd rejected_send) = trace world0 ++ evs /\
    (List.filter is_smtp evs = take k (relay_calls cfg_ok "subject" "body") \/
     ((0 < k)%nat /\
      List.filter is_smtp evs
      = take k (relay_calls cfg_ok "subject" "body") ++ [SmtpQuit])) /\
    (fst rejected_send = Ret true ->
     List.filter is_smtp evs = relay_calls cfg_ok "subject" "body" ++ [SmtpQuit]) /\
    (truthy (SENDER_PASSWORD cfg_ok) = true ->
     compose relay_rejects = None -> connect relay_rejects = None ->
     quit relay_rejects = None ->
     (0 < k)%nat /\
     List.filter is_smtp evs
     = take k (relay_calls cfg_ok "subject" "body") ++ [SmtpQuit]).
Proof.
  assert (E : send_notification cfg_ok relay_rejects "subject" "body" world0
              = (fst rejected_send, snd rejected_send))
    by (vm_compute; reflexivity).
  split; [exact E|]. split; [reflexivity|].
  exact (relay_calls_in_order cfg_ok relay_rejects "subject" "body" world0 _ _ E).
Defined.


Lemma startup_failure_exits_witness :
  camera_opens env_no_camera = false /\
  main env_no_camera =
  (Raise {| exc_class := SystemExit; exc_msg := "" |},
   {| objects := []; cap := Some false;
      trace :=
        (if camera_opens env_no_camera
         then [Stdout "✓ Camera opened successfully";
               Stdout "✗ Error: Could not read from camera"; CapRelease]
         else [Stdout "✗ Error: Could not open video stream. Check camera permissions."])
        ++ teardown |}).
Proof.
  split; [reflexivity|].
  apply (startup_failure_exits env_no_camera). left. reflexivity.
Defined.

Lemma resized_frame_is_fatal_witness :
  cv2.shape (gray1 vars0) <> cv2.shape (prepare (frame t_small)) /\
  exists e,
    exc_class e = cv2_error /\
    loop_body cfg_ok vars0 t_small world0 =
      (Raise e, {| objects := objects world0 ++ [frame t_small]; cap := cap world0;
                   trace := trace world0 |}) /\
    main_loop cfg_ok vars0 [t_small; t_first] world0 =
      (Raise e, {| objects := objects world0 ++ [frame t_small]; cap := cap world0;
                   trace := trace world0 |}).
Proof.
  assert (Hs : cv2.shape (gray1 vars0) <> cv2.shape (prepare (frame t_small)))
    by (vm_compute; discriminate).
  split; [exact Hs|].
  exact (resized_frame_is_fatal cfg_ok vars0 t_small [t_first] world0 Hs).
Defined.

Lemma mask_is_neighbourhood_witness :
  rectangular 26 diff_block /\
  cv2.at_ diff_block 1 1 = 0 /\
  (cv2.at_ (mask diff_block) 1 1 = 255 <->
   cv2.in_image diff_block (1, 1) = true /\
   exists dy dx, -2 <= dy <= 2 /\ -2 <= dx <= 2 /\
                 MOTION_THRESHOLD < cv2.at_ diff_block (1 + dy) (1 + dx)) /\
  (cv2.at_ (mask diff_block) 1 1 = 0 \/ cv2.at_ (mask diff_block) 1 1 = 255) /\
  cv2.shape (mask diff_block) = cv2.shape diff_block.
Proof.
  assert (Hr : rectangular 26 diff_block) by (repeat constructor).
  split; [exact Hr|]. split; [reflexivity|].
  exact (mask_is_neighbourhood 26 diff_block 1 1 Hr).
Defined.

Lemma slow_drift_never_alerts_witness :
  drifting (gray1 vars0) [t_faint; t_dim2; t_dim3] = true /\
  faint_change (gray1 vars0) (prepare (frame t_dim3)) = false /\
  exists vN ps wN evs,
    main_loop cfg_ok vars0 [t_faint; t_dim2; t_dim3] world0 = (Ret (vN, ps), wN) /\
    Forall (fun p => motion_detected p = false /\ notified p = None) ps /\
    last_notification_time vN = last_notification_time vars0 /\
    gray1 vN = List.last (map (fun t => prepare (frame t))
                              (until_quit [t_faint; t_dim2; t_dim3]))
                         (gray1 vars0) /\
    trace wN = trace world0 ++ evs /\
    Forall (fun ev => is_smtp ev = false) evs.
Proof.
  split; [vm_compute; reflexivity|]. split; [vm_compute; reflexivity|].
  apply (slow_drift_never_alerts cfg_ok [t_faint; t_dim2; t_dim3] vars0 world0).
  vm_compute. reflexivity.
Defined.

Lemma interrupt_during_send_is_fatal_witness :
  cv2.absdiff (gray1 vars0) (prepare (frame t_interrupted)) = Some diff_block /\
  raised (smtp t_interrupted)
    = [{| exc_class := KeyboardInterrupt; exc_msg := "" |}] /\
  exists w' evs,
    loop_body cfg_ok vars0 t_interrupted world0
      = (Raise {| exc_class := KeyboardInterrupt; exc_msg := "" |}, w') /\
    main_loop cfg_ok vars0 [t_interrupted; t_first] world0
      = (Raise {| exc_class := KeyboardInterrupt; exc_msg := "" |}, w') /\
    trace w' = trace world0 ++ evs /\
    Forall (fun ev => off_screen ev = true) evs.
Proof.
  assert (Hd : cv2.absdiff (gray1 vars0) (prepare (frame t_interrupted))
               = Some diff_block) by (vm_compute; reflexivity).
  split; [exact Hd|]. split; [reflexivity|].
  apply (interrupt_during_send_is_fatal cfg_ok vars0 t_interrupted [t_first] world0
           diff_block _ Hd).
  - vm_compute. reflexivity.
  - vm_compute. reflexivity.
  - reflexivity.
  - reflexivity.
  - reflexivity.
Defined.

Lemma alert_reports_what_is_drawn_witness :
  loop_body cfg_ok vars0 t_first world0 = (Ret (c_first, v_first, p_first), w_first) /\
  notified p_first = Some true /\
  length (filterAndBound (contours p_first) MIN_CONTOUR_AREA) = 1%nat /\
  let n := length (filterAndBound (contours p_first) MIN_CONTOUR_AREA) in
  (0 < n)%nat /\
  exists evs,
    trace w_first = trace world0 ++ evs /\
    List.filter is_smtp evs =
      relay_calls cfg_ok "🚨 Motion Detected!"
        ("Motion was detected by the camera at " ++ body_stamp t_first ++ "."
         ++ newline ++ newline ++ "Number of objects detected: " ++ str_nat n)
      ++ [SmtpQuit] /\
    In (Stdout ("[" ++ timestamp t_first ++ "] Alert sent! Motion with "
                ++ str_nat n ++ " object(s) detected.")) evs.
Proof.
  assert (E : loop_body cfg_ok vars0 t_first world0
              = (Ret (c_first, v_first, p_first), w_first))
    by (vm_compute; reflexivity).
  split; [exact E|]. split; [reflexivity|]. split; [vm_compute; reflexivity|].
  exact (alert_reports_what_is_drawn cfg_ok vars0 t_first world0 _ _ _ _ E eq_refl).
Defined.
